(** * simple-egl: surface lifecycle and frame-paced render loop

    A shallow embedding of [clients/simple-egl.c].  The C program is a
    single-threaded Wayland client: every function either mutates the
    two structs [struct display] and [struct window] (plus one function
    static and one global), or sends a request to the display server or
    to the EGL/GL provider.  The embedding threads one [world] value
    through the functions; requests are recorded in the world's [log].

    Pointers are handles in [N], [NULL] is [0].  [uint32_t] and [int]
    values are in [Z]; the one place where unsigned wrap-around matters
    (the elapsed time in [redraw]) writes it out. *)

From Stdlib Require Import ZArith List String Bool Lia.
Import ListNotations.
Open Scope Z_scope.

(** ** Data *)

Definition ptr := N.
Definition NULL : ptr := 0%N.

Definition is_null (p : ptr) : bool := N.eqb p NULL.

(** [struct display], with the anonymous [egl] struct flattened. *)
Record display := mk_display {
  wl_display : ptr;
  compositor : ptr;
  shell : ptr;
  input : ptr;
  egl_dpy : ptr;
  egl_ctx : ptr;
  egl_conf : ptr;
  mask : Z
}.

(** [struct window]; the back pointer to the display is the enclosing
    [world].  The unused [fbo] and [color_rbo] members are left out. *)
Record window := mk_window {
  geometry_width : Z;
  geometry_height : Z;
  gl_program : ptr;
  gl_rotation_uniform : ptr;
  gl_pos : Z;
  gl_col : Z;
  native : ptr;
  surface : ptr;
  shell_surface : ptr;
  egl_surface : ptr;
  callback : ptr;
  fullscreen : Z;
  configured : Z
}.

(** Requests sent to the display server and calls made into EGL/GL, in
    the vocabulary of the C source.  [GlClear] stands for
    [glClearColor] and [glClear], [GlDrawArrays] for the attribute
    pointers, their enabling, the draw and their disabling, and
    [GlCreateShader] for creating and compiling one shader. *)
Inductive request :=
| WlDisplayConnect (dpy : ptr)
| WlDisplayAddGlobalListener
| WlDisplayGetFd
| WlDisplayBind (id : Z) (interface : string) (proxy : ptr)
| WlInputDeviceAddListener (dev : ptr)
| WlInputDeviceAttach (dev : ptr) (serial : Z)
| EglGetDisplay (dpy : ptr)
| EglInitialize
| EglBindAPI
| EglChooseConfig (alpha_size : Z) (conf : ptr)
| EglCreateContext (ctx : ptr)
| WlCompositorCreateSurface (comp : ptr) (surf : ptr)
| WlShellGetShellSurface (sh : ptr) (surf : ptr) (ss : ptr)
| WlShellSurfaceAddListener (ss : ptr)
| WlShellSurfaceSetFullscreen (ss : ptr)
| WlShellSurfaceSetToplevel (ss : ptr)
| WlShellSurfacePong (ss : ptr) (serial : Z)
| WlEglWindowCreate (surf : ptr) (width height : Z) (nat_win : ptr)
| EglCreateWindowSurface (nat_win : ptr) (es : ptr)
| EglMakeCurrent (es : ptr) (ctx : ptr)
| GlViewport (width height : Z)
| GlCreateShader (fragment : bool)
| GlLinkProgram (prog : ptr)
| GlUseProgram (prog : ptr)
| GlBindAttribLocation (prog : ptr) (index : Z) (name : string)
| GlGetUniformLocation (prog : ptr) (name : string) (loc : ptr)
| GlUniformMatrix4fv (loc : ptr) (angle_deg : Z)
| GlClear
| GlDrawArrays (pos col : Z)
| GlFlush
| EglSwapBuffers (es : ptr)
| WlSurfaceFrame (surf : ptr) (cb : ptr)
| WlCallbackAddListener (cb : ptr)
| WlCallbackDestroy (cb : ptr)
| WlEglWindowDestroy (nat_win : ptr)
| WlShellSurfaceDestroy (ss : ptr)
| WlSurfaceDestroy (surf : ptr)
| EglTerminate
| EglReleaseThread
| WlShellDestroy (sh : ptr)
| WlCompositorDestroy (comp : ptr)
| WlDisplayFlush
| WlDisplayDisconnect.

(** The whole program state: both structs, the function static
    [start_time] of [redraw], the global [running], the handle
    allocator of the libraries, and the requests sent so far (newest
    first). *)
Record world := mk_world {
  d : display;
  win : window;
  start_time : Z;
  running : Z;
  next : N;
  log : list request
}.

(** The requests in the order they were sent. *)
Definition requests (w : world) : list request := rev (log w).

(** ** Field updates *)

Definition upd_d (f : display -> display) (w : world) : world :=
  mk_world (f (d w)) (win w) (start_time w) (running w) (next w) (log w).

Definition upd_win (f : window -> window) (w : world) : world :=
  mk_world (d w) (f (win w)) (start_time w) (running w) (next w) (log w).

Definition set_start_time (t : Z) (w : world) : world :=
  mk_world (d w) (win w) t (running w) (next w) (log w).

Definition set_running (r : Z) (w : world) : world :=
  mk_world (d w) (win w) (start_time w) r (next w) (log w).

Definition emit (r : request) (w : world) : world :=
  mk_world (d w) (win w) (start_time w) (running w) (next w) (r :: log w).

(** Every object the libraries hand out is a new non-null handle. *)
Definition fresh (w : world) : ptr * world :=
  let h := N.succ (next w) in
  (h, mk_world (d w) (win w) (start_time w) (running w) h (log w)).

Definition set_wl_display p (x : display) :=
  mk_display p (compositor x) (shell x) (input x)
             (egl_dpy x) (egl_ctx x) (egl_conf x) (mask x).
Definition set_compositor p (x : display) :=
  mk_display (wl_display x) p (shell x) (input x)
             (egl_dpy x) (egl_ctx x) (egl_conf x) (mask x).
Definition set_shell p (x : display) :=
  mk_display (wl_display x) (compositor x) p (input x)
             (egl_dpy x) (egl_ctx x) (egl_conf x) (mask x).
Definition set_input p (x : display) :=
  mk_display (wl_display x) (compositor x) (shell x) p
             (egl_dpy x) (egl_ctx x) (egl_conf x) (mask x).
Definition set_egl dpy ctx conf (x : display) :=
  mk_display (wl_display x) (compositor x) (shell x) (input x)
             dpy ctx conf (mask x).
Definition set_mask m (x : display) :=
  mk_display (wl_display x) (compositor x) (shell x) (input x)
             (egl_dpy x) (egl_ctx x) (egl_conf x) m.

Definition set_geometry wd ht (x : window) :=
  mk_window wd ht (gl_program x) (gl_rotation_uniform x) (gl_pos x) (gl_col x)
            (native x) (surface x) (shell_surface x) (egl_surface x)
            (callback x) (fullscreen x) (configured x).
Definition set_gl_program p (x : window) :=
  mk_window (geometry_width x) (geometry_height x) p (gl_rotation_uniform x)
            (gl_pos x) (gl_col x)
            (native x) (surface x) (shell_surface x) (egl_surface x)
            (callback x) (fullscreen x) (configured x).
Definition set_gl_rotation_uniform p (x : window) :=
  mk_window (geometry_width x) (geometry_height x) (gl_program x) p
            (gl_pos x) (gl_col x)
            (native x) (surface x) (shell_surface x) (egl_surface x)
            (callback x) (fullscreen x) (configured x).
Definition set_gl_pos v (x : window) :=
  mk_window (geometry_width x) (geometry_height x) (gl_program x)
            (gl_rotation_uniform x) v (gl_col x)
            (native x) (surface x) (shell_surface x) (egl_surface x)
            (callback x) (fullscreen x) (configured x).
Definition set_native p (x : window) :=
  mk_window (geometry_width x) (geometry_height x) (gl_program x)
            (gl_rotation_uniform x) (gl_pos x) (gl_col x)
            p (surface x) (shell_surface x) (egl_surface x)
            (callback x) (fullscreen x) (configured x).
Definition set_surface p (x : window) :=
  mk_window (geometry_width x) (geometry_height x) (gl_program x)
            (gl_rotation_uniform x) (gl_pos x) (gl_col x)
            (native x) p (shell_surface x) (egl_surface x)
            (callback x) (fullscreen x) (configured x).
Definition set_shell_surface p (x : window) :=
  mk_window (geometry_width x) (geometry_height x) (gl_program x)
            (gl_rotation_uniform x) (gl_pos x) (gl_col x)
            (native x) (surface x) p (egl_surface x)
            (callback x) (fullscreen x) (configured x).
Definition set_egl_surface p (x : window) :=
  mk_window (geometry_width x) (geometry_height x) (gl_program x)
            (gl_rotation_uniform x) (gl_pos x) (gl_col x)
            (native x) (surface x) (shell_surface x) p
            (callback x) (fullscreen x) (configured x).
Definition set_callback p (x : window) :=
  mk_window (geometry_width x) (geometry_height x) (gl_program x)
            (gl_rotation_uniform x) (gl_pos x) (gl_col x)
            (native x) (surface x) (shell_surface x) (egl_surface x)
            p (fullscreen x) (configured x).
Definition set_fullscreen v (x : window) :=
  mk_window (geometry_width x) (geometry_height x) (gl_program x)
            (gl_rotation_uniform x) (gl_pos x) (gl_col x)
            (native x) (surface x) (shell_surface x) (egl_surface x)
            (callback x) v (configured x).
Definition set_configured v (x : window) :=
  mk_window (geometry_width x) (geometry_height x) (gl_program x)
            (gl_rotation_uniform x) (gl_pos x) (gl_col x)
            (native x) (surface x) (shell_surface x) (egl_surface x)
            (callback x) (fullscreen x) v.

(** ** The transport's view of frame callbacks

    [wl_surface_frame] creates a [wl_callback] proxy and
    [wl_callback_destroy] deletes one; the proxies alive after a
    sequence of requests (newest first) are the frame requests the
    client still holds. *)
Fixpoint live_callbacks (l : list request) : list ptr :=
  match l with
  | [] => []
  | WlSurfaceFrame _ cb :: l' => cb :: live_callbacks l'
  | WlCallbackDestroy cb :: l' => remove N.eq_dec cb (live_callbacks l')
  | _ :: l' => live_callbacks l'
  end.

(** ** Library calls that allocate *)

Definition wl_display_bind (id : Z) (interface : string) (w : world)
  : ptr * world :=
  let (h, w) := fresh w in (h, emit (WlDisplayBind id interface h) w).

Definition wl_surface_frame (surf : ptr) (w : world) : ptr * world :=
  let (h, w) := fresh w in (h, emit (WlSurfaceFrame surf h) w).

(** [strcmp]: zero exactly on equal strings, else the sign of the
    comparison. *)
Definition strcmp (a b : string) : Z :=
  match String.compare a b with
  | Eq => 0
  | Lt => -1
  | Gt => 1
  end.

(** ** Handlers *)

Definition handle_ping (ss : ptr) (serial : Z) (w : world) : world :=
  emit (WlShellSurfacePong ss serial) w.

Definition handle_configure (ss : ptr) (edges width height : Z) (w : world)
  : world :=
  let w := upd_win (set_geometry width height) w in
  upd_win (set_configured 1) w.

Definition handle_popup_done (ss : ptr) (w : world) : world := w.

Definition speed_div : Z := 5.

Definition uint32_mod : Z := 2 ^ 32.

(** The angle of [redraw] in whole degrees, before the conversion to
    radians: [(time - start_time) / speed_div % 360] in [uint32_t]
    arithmetic ([speed_div] and [360] are converted to unsigned). *)
Definition angle_deg (time start : Z) : Z :=
  (((time - start) mod uint32_mod) / speed_div) mod 360.

Definition redraw (cb : ptr) (time : Z) (w : world) : world :=
  let w := if start_time w =? 0 then set_start_time time w else w in
  let angle := angle_deg time (start_time w) in
  let w := emit (GlUniformMatrix4fv (gl_rotation_uniform (win w)) angle) w in
  let w := emit GlClear w in
  let w := emit (GlDrawArrays (gl_pos (win w)) (gl_col (win w))) w in
  let w := emit GlFlush w in
  let w := emit (EglSwapBuffers (egl_surface (win w))) w in
  let w := if is_null cb then w else emit (WlCallbackDestroy cb) w in
  let (h, w) := wl_surface_frame (surface (win w)) w in
  let w := upd_win (set_callback h) w in
  emit (WlCallbackAddListener (callback (win w))) w.

Definition input_handle_pointer_enter (dev : ptr) (serial : Z) (w : world)
  : world :=
  if fullscreen (win w) =? 0 then w
  else emit (WlInputDeviceAttach dev serial) w.

Definition display_handle_global (id : Z) (interface : string) (version : Z)
  (w : world) : world :=
  if strcmp interface "wl_compositor" =? 0 then
    let (h, w) := wl_display_bind id "wl_compositor" w in
    upd_d (set_compositor h) w
  else if strcmp interface "wl_shell" =? 0 then
    let (h, w) := wl_display_bind id "wl_shell" w in
    upd_d (set_shell h) w
  else if strcmp interface "wl_input_device" =? 0 then
    let (h, w) := wl_display_bind id "wl_input_device" w in
    let w := upd_d (set_input h) w in
    emit (WlInputDeviceAddListener (input (d w))) w
  else w.

Definition event_mask_update (m : Z) (w : world) : world :=
  upd_d (set_mask m) w.

Definition signal_int (w : world) : world := set_running 0 w.

(** ** Events and dispatch

    What the server may deliver.  Each event names the object it is
    addressed to; the transport hands an event to a listener only if
    the addressed proxy exists on the client side and has one. *)
Inductive event :=
| Global (id : Z) (interface : string) (version : Z)
| MaskUpdate (m : Z)
| Ping (ss : ptr) (serial : Z)
| Configure (ss : ptr) (edges width height : Z)
| PopupDone (ss : ptr)
| Done (cb : ptr) (time : Z)
| PointerEnter (dev : ptr) (serial : Z)
| InputOther (dev : ptr).

Definition is_shell_surface (ss : ptr) (w : world) : bool :=
  negb (is_null ss) && N.eqb ss (shell_surface (win w)).

(** Line 480 puts [input_listener] on every [wl_input_device] proxy
    the program binds and never takes it off: an input event is handed
    to the listener for any of them, not only for the one stored last in
    [display.input]. *)
Definition is_input (dev : ptr) (w : world) : bool :=
  negb (is_null dev)
  && existsb (fun r => match r with
                       | WlInputDeviceAddListener dev' => N.eqb dev dev'
                       | _ => false
                       end) (log w).

Definition is_live_callback (cb : ptr) (w : world) : bool :=
  existsb (N.eqb cb) (live_callbacks (log w)).

Definition dispatch (ev : event) (w : world) : world :=
  match ev with
  | Global id interface version => display_handle_global id interface version w
  | MaskUpdate m => event_mask_update m w
  | Ping ss serial =>
      if is_shell_surface ss w then handle_ping ss serial w else w
  | Configure ss edges width height =>
      if is_shell_surface ss w then handle_configure ss edges width height w
      else w
  | PopupDone ss =>
      if is_shell_surface ss w then handle_popup_done ss w else w
  | Done cb time =>
      if is_live_callback cb w then redraw cb time w else w
  | PointerEnter dev serial =>
      if is_input dev w then input_handle_pointer_enter dev serial w else w
  | InputOther dev => w
  end.

(** One call of [wl_display_iterate] dispatches the batch of events the
    server has sent by then. *)
Definition batch := list event.

Definition wl_display_iterate (b : batch) (w : world) : world :=
  fold_left (fun w ev => dispatch ev w) b w.

(** ** Outcomes of the functions that can fail or wait *)

(** What the environment answers where the program asserts on it or
    exits: the connection, the EGL set-up, [eglMakeCurrent], and the
    shader compiler and linker. *)
Record provider := mk_provider {
  connect_ok : bool;
  egl_ok : bool;
  make_current_ok : bool;
  gl_ok : bool
}.

Inductive outcome (A : Type) : Type :=
| Returned (a : A) (w : world)
| Fatal (w : world)
| Blocked (w : world).

Arguments Returned {A} a w.
Arguments Fatal {A} w.
Arguments Blocked {A} w.

Definition bind {A B : Type} (m : outcome A) (k : A -> world -> outcome B)
  : outcome B :=
  match m with
  | Returned a w => k a w
  | Fatal w => Fatal w
  | Blocked w => Blocked w
  end.

Notation "'call' ( a , w ) <- m ; k" := (bind m (fun a w => k))
  (at level 10, a name, w name, m at level 100, k at level 200).

Definition final {A : Type} (o : outcome A) : world :=
  match o with
  | Returned _ w => w
  | Fatal w => w
  | Blocked w => w
  end.

(** ** EGL and GL set-up *)

Definition init_egl (env : provider) (alpha_size : Z) (w : world)
  : outcome unit :=
  let (dpy, w) := fresh w in
  let w := emit (EglGetDisplay dpy) w in
  if negb (egl_ok env) then Fatal w else
  let w := emit EglInitialize w in
  let w := emit EglBindAPI w in
  let (conf, w) := fresh w in
  let w := emit (EglChooseConfig alpha_size conf) w in
  let (ctx, w) := fresh w in
  let w := emit (EglCreateContext ctx) w in
  Returned tt (upd_d (set_egl dpy ctx conf) w).

Definition fini_egl (w : world) : world :=
  let w := emit (EglMakeCurrent NULL NULL) w in
  let w := emit EglTerminate w in
  emit EglReleaseThread w.

Definition init_gl (env : provider) (w : world) : outcome unit :=
  let w := emit (GlViewport (geometry_width (win w))
                            (geometry_height (win w))) w in
  let w := emit (GlCreateShader true) w in
  if negb (gl_ok env) then Fatal w else
  let w := emit (GlCreateShader false) w in
  let (prog, w) := fresh w in
  let w := upd_win (set_gl_program prog) w in
  let w := emit (GlLinkProgram (gl_program (win w))) w in
  let w := emit (GlUseProgram (gl_program (win w))) w in
  let w := upd_win (set_gl_pos 0) w in
  let w := upd_win (set_gl_pos 1) w in
  let w := emit (GlBindAttribLocation (gl_program (win w))
                                      (gl_pos (win w)) "pos") w in
  let w := emit (GlBindAttribLocation (gl_program (win w))
                                      (gl_col (win w)) "color") w in
  let w := emit (GlLinkProgram (gl_program (win w))) w in
  let (loc, w) := fresh w in
  let w := emit (GlGetUniformLocation (gl_program (win w)) "rotation" loc) w in
  Returned tt (upd_win (set_gl_rotation_uniform loc) w).

(** ** Surface negotiation *)

(** Lines 244-249: the surface, its shell surface and the listener.
    Both library calls dereference the capability they are given. *)
Definition create_surface_open (w : world) : outcome unit :=
  if is_null (compositor (d w)) then Fatal w else
  let (s, w) := fresh w in
  let w := emit (WlCompositorCreateSurface (compositor (d w)) s) w in
  let w := upd_win (set_surface s) w in
  if is_null (shell (d w)) then Fatal w else
  let (ss, w) := fresh w in
  let w := emit (WlShellGetShellSurface (shell (d w)) (surface (win w)) ss) w in
  let w := upd_win (set_shell_surface ss) w in
  Returned tt (emit (WlShellSurfaceAddListener (shell_surface (win w))) w).

(** Lines 257-258: [while (!window->configured) wl_display_iterate(...)].
    When the server has nothing more to send the call never returns. *)
Fixpoint wait_configured (script : list batch) (w : world)
  : outcome (list batch) :=
  if configured (win w) =? 0 then
    match script with
    | [] => Blocked w
    | b :: rest => wait_configured rest (wl_display_iterate b w)
    end
  else Returned script w.

(** Lines 263-274: the native window, the EGL surface, make current. *)
Definition create_surface_native {A : Type} (env : provider) (a : A)
  (w : world) : outcome A :=
  let (n, w) := fresh w in
  let w := emit (WlEglWindowCreate (surface (win w))
                                   (geometry_width (win w))
                                   (geometry_height (win w)) n) w in
  let w := upd_win (set_native n) w in
  let (es, w) := fresh w in
  let w := emit (EglCreateWindowSurface (native (win w)) es) w in
  let w := upd_win (set_egl_surface es) w in
  let w := emit (EglMakeCurrent (egl_surface (win w)) (egl_ctx (d w))) w in
  if make_current_ok env then Returned a w else Fatal w.

Definition create_surface (env : provider) (script : list batch) (w : world)
  : outcome (list batch) :=
  call (_, w) <- create_surface_open w;
  if fullscreen (win w) =? 0 then
    let w := emit (WlShellSurfaceSetToplevel (shell_surface (win w))) w in
    create_surface_native env script w
  else
    let w := upd_win (set_configured 0) w in
    let w := emit (WlShellSurfaceSetFullscreen (shell_surface (win w))) w in
    call (rest, w) <- wait_configured script w;
    create_surface_native env rest w.

Definition destroy_surface (w : world) : world :=
  let w := emit (WlEglWindowDestroy (native (win w))) w in
  let w := emit (WlShellSurfaceDestroy (shell_surface (win w))) w in
  let w := emit (WlSurfaceDestroy (surface (win w))) w in
  if is_null (callback (win w)) then w
  else emit (WlCallbackDestroy (callback (win w))) w.

(** ** main *)

Definition zero_display : display :=
  mk_display NULL NULL NULL NULL NULL NULL NULL 0.

Definition zero_window : window :=
  mk_window 0 0 NULL NULL 0 0 NULL NULL NULL NULL NULL 0 0.

(** Lines 506-515.  [start_time] and [running] carry their static
    initialisers. *)
Definition main_init (argv : list string) : world :=
  let w := mk_world zero_display zero_window 0 1 0%N [] in
  let w := upd_win (set_geometry 250 250) w in
  if (Z.of_nat (List.length argv) >=? 2)
     && negb (strcmp "-f" (nth 0 argv EmptyString) =? 0)
  then upd_win (set_fullscreen 1) w
  else w.

(** Lines 517-535: everything up to and including the first, synthetic
    [redraw(&window, NULL, 0)]. *)
Definition startup (env : provider) (argv : list string) (script : list batch)
  : outcome (list batch) :=
  let w := main_init argv in
  if negb (connect_ok env) then Fatal w else
  let (dpy, w) := fresh w in
  let w := emit (WlDisplayConnect dpy) w in
  let w := upd_d (set_wl_display dpy) w in
  let w := emit WlDisplayAddGlobalListener w in
  let w := emit WlDisplayGetFd w in
  match script with
  | [] => Blocked w
  | b :: script =>
      let w := wl_display_iterate b w in
      call (_, w) <- init_egl env (if fullscreen (win w) =? 0 then 1 else 0) w;
      call (script, w) <- create_surface env script w;
      call (_, w) <- init_gl env w;
      Returned script (redraw NULL 0 w)
  end.

(** Lines 537-538: [while (running) wl_display_iterate(...)].  The
    interrupt arrives while the program waits for events the server no
    longer sends. *)
Fixpoint main_loop (script : list batch) (w : world) : world :=
  if running w =? 0 then w
  else match script with
       | [] => signal_int w
       | b :: rest => main_loop rest (wl_display_iterate b w)
       end.

(** Lines 542-552. *)
Definition teardown (w : world) : world :=
  let w := destroy_surface w in
  let w := fini_egl w in
  let w := if is_null (shell (d w)) then w
           else emit (WlShellDestroy (shell (d w))) w in
  let w := if is_null (compositor (d w)) then w
           else emit (WlCompositorDestroy (compositor (d w))) w in
  let w := emit WlDisplayFlush w in
  emit WlDisplayDisconnect w.

Definition main (env : provider) (argv : list string) (script : list batch)
  : outcome Z :=
  call (script, w) <- startup env argv script;
  let w := main_loop script w in
  Returned 0 (teardown w).

Definition all_ok : provider := mk_provider true true true true.

(** ** Observations on the request log *)

(** Angles of the rotation uniforms uploaded, one per rendered frame. *)
Fixpoint angles (l : list request) : list Z :=
  match l with
  | [] => []
  | GlUniformMatrix4fv _ a :: l' => a :: angles l'
  | _ :: l' => angles l'
  end.

(** The frames presented: for every [eglSwapBuffers], the viewport in
    force and the angle of the last rotation uniform uploaded.  [vp] and
    [ang] are the GL state before the requests [l] (oldest first). *)
Fixpoint frames_from (vp : Z * Z) (ang : Z) (l : list request)
  : list (Z * Z * Z) :=
  match l with
  | [] => []
  | GlViewport wd ht :: l' => frames_from (wd, ht) ang l'
  | GlUniformMatrix4fv _ a :: l' => frames_from vp a l'
  | EglSwapBuffers _ :: l' => (fst vp, snd vp, ang) :: frames_from vp ang l'
  | _ :: l' => frames_from vp ang l'
  end.

Definition frames (w : world) : list (Z * Z * Z) :=
  frames_from (0, 0) 0 (requests w).

(** The native windows created, with their sizes. *)
Fixpoint native_windows (l : list request) : list (Z * Z) :=
  match l with
  | [] => []
  | WlEglWindowCreate _ wd ht _ :: l' => (wd, ht) :: native_windows l'
  | _ :: l' => native_windows l'
  end.

(** The frame callbacks alive after the requests [p] (oldest first). *)
Definition outstanding_after (p : list request) : list ptr :=
  live_callbacks (rev p).

(** The requests only [redraw] and [destroy_surface] make. *)
Definition neutral (r : request) : bool :=
  match r with
  | WlSurfaceFrame _ _ => false
  | WlCallbackDestroy _ => false
  | WlCallbackAddListener _ => false
  | GlUniformMatrix4fv _ _ => false
  | _ => true
  end.

(** [l'] extends the log [l] by neutral requests only. *)
Inductive neutral_ext (l : list request) : list request -> Prop :=
| ext_refl : neutral_ext l l
| ext_cons r l' : neutral r = true -> neutral_ext l l' -> neutral_ext l (r :: l').

(** What the frame scheduler owes at the request [r], given the frame
    callbacks alive just before it: a new frame is requested only when
    none is outstanding, and when the listener is put on the new
    callback (the last thing [redraw] does) it is the only one. *)
Definition paced_at (r : request) (before : list ptr) : Prop :=
  match r with
  | WlSurfaceFrame _ _ => before = []
  | WlCallbackAddListener cb => before = [cb]
  | _ => True
  end.

(** The log (newest first) kept to that at every request, and never
    held two frame callbacks. *)
Fixpoint well_paced (l : list request) : Prop :=
  match l with
  | [] => True
  | r :: l' =>
      paced_at r (live_callbacks l')
      /\ (List.length (live_callbacks (r :: l')) <= 1)%nat
      /\ well_paced l'
  end.

(** The footprint of the code outside [redraw] and [destroy_surface]:
    the animation clock and the stored callback stay, only neutral
    requests are sent. *)
Definition calm (w w' : world) : Prop :=
  start_time w' = start_time w /\
  callback (win w') = callback (win w) /\
  neutral_ext (log w) (log w').

(** The footprint of the code outside the handlers: calm, and the
    geometry stays. *)
Definition quiet (w w' : world) : Prop :=
  calm w w' /\
  geometry_width (win w') = geometry_width (win w) /\
  geometry_height (win w') = geometry_height (win w).

(** ** Predicates, observations and scenarios of the theorems *)

(** [P] holds in the state an outcome ends in, and [R] of the value it
    returns, if it returns one. *)
Definition holds {A : Type} (P : world -> Prop) (R : A -> Prop)
  (o : outcome A) : Prop :=
  P (final o) /\ match o with Returned a _ => R a | _ => True end.

(** Every event of the script is one the server is assumed to send. *)
Definition sent (E : event -> Prop) (script : list batch) : Prop :=
  Forall (Forall E) script.

(** The start time [redraw] works with: captured from [time] while the
    static still holds its initialiser [0]. *)
Definition captured (time : Z) (w : world) : Z :=
  if start_time w =? 0 then time else start_time w.

(** Before the first [redraw]: no frame callback exists, none is
    stored, the animation clock is unset and nothing was rendered. *)
Definition Idle (w : world) : Prop :=
  live_callbacks (log w) = []
  /\ callback (win w) = NULL
  /\ start_time w = 0
  /\ angles (log w) = []
  /\ well_paced (log w).

(** From then on: the stored callback is the one frame callback
    alive. *)
Definition Armed (w : world) : Prop :=
  live_callbacks (log w) = [callback (win w)]
  /\ callback (win w) <> NULL
  /\ well_paced (log w).

(** An angle in whole degrees that is within one degree of 1. *)
Definition about_one_degree (a : Z) : Prop := Z.abs (a - 1) <= 1.

(** A state whose start time has been captured as [s]. *)
Definition clock_at (s : Z) : world := set_start_time s (main_init []).

(** The first timestamp that is not [0], and [0] when there is none. *)
Fixpoint first_nonzero (ts : list Z) : Z :=
  match ts with
  | [] => 0
  | t :: ts' => if t =? 0 then first_nonzero ts' else t
  end.

(** A sequence of frame-handler invocations, each with the callback
    and the timestamp it is given. *)
Definition redraw_all (calls : list (ptr * Z)) (w : world) : world :=
  fold_left (fun w c => redraw (fst c) (snd c) w) calls w.

(** The state after consecutive calls of [wl_display_iterate], one per
    batch. *)
Definition run_batches (bs : list batch) (w : world) : world :=
  fold_left (fun w b => wl_display_iterate b w) bs w.

(** The batch carries a configure event for the shell surface [ss]. *)
Definition has_configure (ss : ptr) (b : batch) : bool :=
  existsb (fun ev => match ev with
                     | Configure ss' _ _ _ => N.eqb ss' ss
                     | _ => false
                     end) b.

(** Width and height of the stored geometry are positive. *)
Definition positive_geometry (w : world) : Prop :=
  0 < geometry_width (win w) /\ 0 < geometry_height (win w).

(** The server sends configure events with positive sizes only. *)
Definition well_sized (ev : event) : Prop :=
  match ev with
  | Configure _ _ width height => 0 < width /\ 0 < height
  | _ => True
  end.

(** The two globals the program needs, announced in the first batch. *)
Definition announce : batch :=
  [Global 1 "wl_compositor" 1; Global 2 "wl_shell" 1].

(** Command lines: no argument, and the fullscreen flag. *)
Definition argv_windowed : list string := ["simple-egl"%string].
Definition argv_fullscreen : list string :=
  ["simple-egl"%string; "-f"%string].

(** In both runs below the shell surface is the eighth object handed
    out and the first frame callback the thirteenth. *)
Definition zero_size : list batch := [announce; [Configure 8%N 0 0 0]].

(** The scenario: the globals, then one configure of 300 by 200, then
    the first frame callback firing with time 100. *)
Definition end_to_end : list batch :=
  [announce; [Configure 8%N 0 300 200]; [Done 13%N 100]].

(** The fullscreen run when the event loop is entered: the configure
    was dispatched by the wait in [create_surface]. *)
Definition fullscreen_started : world :=
  final (startup all_ok argv_fullscreen end_to_end).

(** The windowed run when the event loop is entered. *)
Definition windowed_started : world :=
  final (startup all_ok argv_windowed end_to_end).

(** The windowed run once the loop has dispatched the configure. *)
Definition windowed_configured : world :=
  wl_display_iterate [Configure 8%N 0 300 200] windowed_started.

(** A display with both globals bound, before [create_surface]. *)
Definition bound (argv : list string) : world :=
  wl_display_iterate announce (main_init argv).

(** A windowed run right after start-up, with nothing but the globals
    received. *)
Definition windowed_idle : world :=
  final (startup all_ok argv_windowed [announce]).

(** ** Observations and footprints of the further properties *)

(** The sizes [glViewport] was called with. *)
Definition viewports (l : list request) : list (Z * Z) :=
  flat_map (fun r => match r with
                     | GlViewport wd ht => [(wd, ht)]
                     | _ => []
                     end) l.

(** The surfaces presented with [eglSwapBuffers]. *)
Definition swaps (l : list request) : list ptr :=
  flat_map (fun r => match r with
                     | EglSwapBuffers es => [es]
                     | _ => []
                     end) l.

(** The frame callbacks requested with [wl_surface_frame]. *)
Definition frame_requests (l : list request) : list ptr :=
  flat_map (fun r => match r with
                     | WlSurfaceFrame _ cb => [cb]
                     | _ => []
                     end) l.

(** The attribute slots of position and colour at every draw. *)
Definition draws (l : list request) : list (Z * Z) :=
  flat_map (fun r => match r with
                     | GlDrawArrays p c => [(p, c)]
                     | _ => []
                     end) l.

(** The viewport and the rotation angle in force after the requests
    [l] (oldest first), starting from [vp] and [a]. *)
Fixpoint viewport_after (vp : Z * Z) (l : list request) : Z * Z :=
  match l with
  | [] => vp
  | GlViewport wd ht :: l' => viewport_after (wd, ht) l'
  | _ :: l' => viewport_after vp l'
  end.

Fixpoint angle_after (a : Z) (l : list request) : Z :=
  match l with
  | [] => a
  | GlUniformMatrix4fv _ a' :: l' => angle_after a' l'
  | _ :: l' => angle_after a l'
  end.

(** [l'] extends the log [l] by requests of the class [C] only. *)
Inductive ext_by (C : request -> bool) (l : list request)
  : list request -> Prop :=
| ext_by_refl : ext_by C l l
| ext_by_cons r l' : C r = true -> ext_by C l l' -> ext_by C l (r :: l').

(** The requests of the set-up code from the first line of [main] up
    to [init_gl]. *)
Definition negotiation_request (r : request) : bool :=
  match r with
  | WlDisplayConnect _ | WlDisplayAddGlobalListener | WlDisplayGetFd
  | EglGetDisplay _ | EglInitialize | EglBindAPI
  | EglChooseConfig _ _ | EglCreateContext _
  | WlCompositorCreateSurface _ _ | WlShellGetShellSurface _ _ _
  | WlShellSurfaceAddListener _
  | WlShellSurfaceSetFullscreen _ | WlShellSurfaceSetToplevel _
  | WlEglWindowCreate _ _ _ _ | EglCreateWindowSurface _ _
  | EglMakeCurrent _ _ => true
  | _ => false
  end.

(** The requests of [init_gl]. *)
Definition gl_setup_request (r : request) : bool :=
  match r with
  | GlViewport _ _ | GlCreateShader _ | GlLinkProgram _ | GlUseProgram _
  | GlBindAttribLocation _ _ _ | GlGetUniformLocation _ _ _ => true
  | _ => false
  end.

(** The requests of the handlers other than [redraw]. *)
Definition reply_request (r : request) : bool :=
  match r with
  | WlDisplayBind _ _ _ | WlInputDeviceAddListener _
  | WlInputDeviceAttach _ _ | WlShellSurfacePong _ _ => true
  | _ => false
  end.

(** The requests of [redraw]. *)
Definition render_request (r : request) : bool :=
  match r with
  | GlUniformMatrix4fv _ _ | GlClear | GlDrawArrays _ _ | GlFlush
  | EglSwapBuffers _ | WlCallbackDestroy _ | WlSurfaceFrame _ _
  | WlCallbackAddListener _ => true
  | _ => false
  end.

(** The requests of the teardown at the end of [main]. *)
Definition teardown_request (r : request) : bool :=
  match r with
  | WlEglWindowDestroy _ | WlShellSurfaceDestroy _ | WlSurfaceDestroy _
  | WlCallbackDestroy _ | EglMakeCurrent _ _ | EglTerminate
  | EglReleaseThread | WlShellDestroy _ | WlCompositorDestroy _
  | WlDisplayFlush | WlDisplayDisconnect => true
  | _ => false
  end.

(** The requests of any handler. *)
Definition handler_request (r : request) : bool :=
  reply_request r || render_request r.

(** The footprint of the set-up code before [init_gl] and of
    [signal_int]: what the handlers and the renderer read stays, and
    only negotiation requests are sent. *)
Definition still (w w' : world) : Prop :=
  start_time w' = start_time w
  /\ compositor (d w') = compositor (d w)
  /\ shell (d w') = shell (d w)
  /\ input (d w') = input (d w)
  /\ mask (d w') = mask (d w)
  /\ geometry_width (win w') = geometry_width (win w)
  /\ geometry_height (win w') = geometry_height (win w)
  /\ fullscreen (win w') = fullscreen (win w)
  /\ callback (win w') = callback (win w)
  /\ gl_pos (win w') = gl_pos (win w)
  /\ gl_col (win w') = gl_col (win w)
  /\ ext_by negotiation_request (log w) (log w').

(** Lines 517-523 of [main] when the connection succeeds: connect, the
    global listener, the file descriptor. *)
Definition connected (w : world) : world :=
  let (dpy, w) := fresh w in
  let w := emit (WlDisplayConnect dpy) w in
  let w := upd_d (set_wl_display dpy) w in
  let w := emit WlDisplayAddGlobalListener w in
  emit WlDisplayGetFd w.

(** The mask the last [MaskUpdate] of a batch carries, [m] when it has
    none. *)
Definition last_mask (b : batch) (m : Z) : Z :=
  fold_left (fun m ev => match ev with
                         | MaskUpdate m' => m'
                         | _ => m
                         end) b m.

(** The batch announces a global of the given interface. *)
Definition has_global (interface : string) (b : batch) : bool :=
  existsb (fun ev => match ev with
                     | Global _ i _ => String.eqb i interface
                     | _ => false
                     end) b.

(** The event occurs in the script. *)
Definition scripted (script : list batch) (ev : event) : Prop :=
  exists b, In b script /\ In ev b.

(** The requests that are counted below: a rotation upload, a swap, a
    frame request. *)
Definition counted (r : request) : bool :=
  match r with
  | GlUniformMatrix4fv _ _ | EglSwapBuffers _ | WlSurfaceFrame _ _ => true
  | _ => false
  end.

(** The numbers of frames drawn, presented and requested agree. *)
Definition balanced (w : world) : Prop :=
  List.length (swaps (log w)) = List.length (angles (log w))
  /\ List.length (frame_requests (log w)) = List.length (angles (log w)).

(** The colour slot is 0, every draw so far used slot 1 for the
    position and 0 for the colour, and the position slot is 1 as soon
    as a frame has been requested. *)
Definition slots_apart (w : world) : Prop :=
  gl_col (win w) = 0
  /\ Forall (fun pc => pc = (1, 0)) (draws (log w))
  /\ (frame_requests (log w) = [] \/ gl_pos (win w) = 1).

(** A windowed run in which the server pings the shell surface. *)
Definition pinged : list batch := [announce; [Ping 8%N 42]].



(** A state in which the first frame was drawn at time 1000: the
    start time is captured and frame callback 1 is outstanding. *)
Definition armed_at_1000 : world := redraw NULL 1000 (main_init []).

(** ** Basic facts *)

Lemma strcmp_zero_iff (a b : string) : strcmp a b = 0 <-> a = b.
Proof.
  unfold strcmp. split.
  - intro H. apply String.compare_eq_iff.
    destruct (String.compare a b); [ reflexivity | discriminate H .. ].
  - intro H. subst b.
    pose proof (String.compare_antisym a a) as Ha.
    destruct (String.compare a a); [ reflexivity | discriminate Ha .. ].
Qed.

Lemma strcmp_eqb (a b : string) : (strcmp a b =? 0) = String.eqb a b.
Proof.
  destruct (String.eqb_spec a b) as [e | n].
  - apply Z.eqb_eq, strcmp_zero_iff, e.
  - apply Z.eqb_neq. intro H. apply n, strcmp_zero_iff, H.
Qed.

Lemma is_null_succ (n : N) : is_null (N.succ n) = false.
Proof. unfold is_null, NULL. apply N.eqb_neq, N.neq_succ_0. Qed.

Lemma is_null_false (p : ptr) : is_null p = false <-> p <> NULL.
Proof. unfold is_null. apply N.eqb_neq. Qed.

Lemma neutral_ext_trans (a b c : list request) :
  neutral_ext a b -> neutral_ext b c -> neutral_ext a c.
Proof.
  intros Hab Hbc. induction Hbc as [ | r l' Hr Hbc IH].
  - exact Hab.
  - apply ext_cons; assumption.
Qed.

Lemma live_neutral (r : request) (l : list request) :
  neutral r = true -> live_callbacks (r :: l) = live_callbacks l.
Proof. destruct r; simpl; intro H; try reflexivity; discriminate H. Qed.

Lemma neutral_ext_live (l l' : list request) :
  neutral_ext l l' -> live_callbacks l' = live_callbacks l.
Proof.
  induction 1 as [ | r l' Hr Hext IH].
  - reflexivity.
  - rewrite (live_neutral r l' Hr). exact IH.
Qed.

Lemma neutral_ext_angles (l l' : list request) :
  neutral_ext l l' -> angles l' = angles l.
Proof.
  induction 1 as [ | r l' Hr Hext IH].
  - reflexivity.
  - rewrite <- IH. destruct r; simpl; try reflexivity; discriminate Hr.
Qed.

Lemma well_paced_head (l : list request) :
  well_paced l -> (List.length (live_callbacks l) <= 1)%nat.
Proof. destruct l as [ | r l]; simpl; [ lia | tauto ]. Qed.

Lemma neutral_ext_well_paced (l l' : list request) :
  neutral_ext l l' -> well_paced l -> well_paced l'.
Proof.
  induction 1 as [ | r l' Hr Hext IH]; intro Hl.
  - exact Hl.
  - split; [ | split; [ | exact (IH Hl) ] ].
    + destruct r; simpl; try exact I; discriminate Hr.
    + rewrite (live_neutral r l' Hr), (neutral_ext_live l l' Hext).
      apply well_paced_head, Hl.
Qed.

Lemma well_paced_suffix (a b : list request) :
  well_paced (a ++ b) -> well_paced b.
Proof.
  induction a as [ | r a IH]; simpl; [ tauto | ].
  intros (_ & _ & H). exact (IH H).
Qed.

(** The chronological reading of [well_paced]. *)
Lemma well_paced_chronological (w : world) :
  well_paced (log w) ->
  forall p r s, requests w = p ++ r :: s ->
    paced_at r (outstanding_after p)
    /\ (List.length (outstanding_after (p ++ [r])) <= 1)%nat.
Proof.
  intros H p r s Hps. unfold outstanding_after.
  assert (Hl : log w = rev s ++ r :: rev p).
  { rewrite <- (rev_involutive (log w)). fold (requests w). rewrite Hps.
    rewrite rev_app_distr. simpl. rewrite <- app_assoc. reflexivity. }
  rewrite Hl in H. apply well_paced_suffix in H.
  rewrite rev_app_distr. simpl. simpl in H. tauto.
Qed.

Lemma angles_app (a b : list request) : angles (a ++ b) = angles a ++ angles b.
Proof.
  induction a as [ | r a IH]; simpl; [ reflexivity | ].
  destruct r; simpl; rewrite IH; reflexivity.
Qed.

Lemma angles_rev (l : list request) : angles (rev l) = rev (angles l).
Proof.
  induction l as [ | r l IH]; simpl; [ reflexivity | ].
  rewrite angles_app, IH. destruct r; simpl; try apply app_nil_r; reflexivity.
Qed.

Lemma calm_refl (w : world) : calm w w.
Proof. unfold calm. repeat split. apply ext_refl. Qed.

Lemma calm_trans (a b c : world) : calm a b -> calm b c -> calm a c.
Proof.
  unfold calm. intros (H1 & H2 & H3) (K1 & K2 & K3).
  repeat split; try congruence.
  eapply neutral_ext_trans; eassumption.
Qed.

Lemma quiet_calm (w w' : world) : quiet w w' -> calm w w'.
Proof. intros [H _]. exact H. Qed.

Ltac quiet_now :=
  unfold quiet, calm; simpl; repeat split;
  repeat (first [ apply ext_refl | apply ext_cons; [ reflexivity | ] ]).

Lemma quiet_init_egl env alpha (w : world) :
  quiet w (final (init_egl env alpha w)).
Proof. unfold init_egl. simpl. destruct (egl_ok env); quiet_now. Qed.

Lemma quiet_init_gl env (w : world) : quiet w (final (init_gl env w)).
Proof. unfold init_gl. simpl. destruct (gl_ok env); quiet_now. Qed.

Lemma quiet_fini_egl (w : world) : quiet w (fini_egl w).
Proof. unfold fini_egl. quiet_now. Qed.

Lemma quiet_signal_int (w : world) : quiet w (signal_int w).
Proof. unfold signal_int. quiet_now. Qed.

Lemma quiet_create_surface_open (w : world) :
  quiet w (final (create_surface_open w)).
Proof.
  unfold create_surface_open. simpl.
  destruct (is_null (compositor (d w))); simpl; [ quiet_now | ].
  destruct (is_null (shell (d w))); quiet_now.
Qed.

Lemma quiet_create_surface_native {A} env (a : A) (w : world) :
  quiet w (final (create_surface_native env a w)).
Proof.
  unfold create_surface_native. simpl.
  destruct (make_current_ok env); quiet_now.
Qed.

Lemma quiet_display_handle_global id interface version (w : world) :
  quiet w (display_handle_global id interface version w).
Proof.
  unfold display_handle_global.
  repeat match goal with
         | |- context [if ?c then _ else _] => destruct c
         end; quiet_now.
Qed.

Lemma quiet_pointer_enter dev serial (w : world) :
  quiet w (input_handle_pointer_enter dev serial w).
Proof.
  unfold input_handle_pointer_enter.
  destruct (fullscreen (win w) =? 0); quiet_now.
Qed.

(** Every handler but [redraw] is calm; [handle_configure] is the one
    that is not quiet. *)
Lemma dispatch_calm (ev : event) (w : world) :
  match ev with Done cb _ => is_live_callback cb w = false | _ => True end ->
  calm w (dispatch ev w).
Proof.
  destruct ev; simpl; intro H.
  - apply quiet_calm, quiet_display_handle_global.
  - unfold event_mask_update. quiet_now.
  - destruct (is_shell_surface ss w); unfold handle_ping; quiet_now.
  - destruct (is_shell_surface ss w); unfold handle_configure; quiet_now.
  - destruct (is_shell_surface ss w); unfold handle_popup_done; quiet_now.
  - rewrite H. apply calm_refl.
  - destruct (is_input dev w);
      [ apply quiet_calm, quiet_pointer_enter | apply calm_refl ].
  - apply calm_refl.
Qed.

(** ** An invariant rule for [main]

    [E] is what the server is assumed to send.  [I0] is to hold from
    the first line of [main] up to the synthetic first [redraw], [I1]
    from there to the end of the event loop. *)

Lemma bind_holds {A B : Type} (P : world -> Prop) (R : A -> Prop)
  (S : B -> Prop) (m : outcome A) (k : A -> world -> outcome B) :
  holds P R m ->
  (forall a w, R a -> P w -> holds P S (k a w)) ->
  holds P S (bind m k).
Proof.
  intros [Hm Ha] Hk. destruct m as [a w | w | w]; simpl in *.
  - apply Hk; assumption.
  - split; [ exact Hm | exact I ].
  - split; [ exact Hm | exact I ].
Qed.

Section MainRule.
Variable E : event -> Prop.
Variables I0 I1 : world -> Prop.

Hypothesis I0_quiet : forall w w', quiet w w' -> I0 w -> I0 w'.
Hypothesis I0_dispatch : forall ev w, E ev -> I0 w -> I0 (dispatch ev w).
Hypothesis I0_redraw : forall w, I0 w -> I1 (redraw NULL 0 w).
Hypothesis I1_quiet : forall w w', quiet w w' -> I1 w -> I1 w'.
Hypothesis I1_dispatch : forall ev w, E ev -> I1 w -> I1 (dispatch ev w).

Lemma iterate_rule (P : world -> Prop) :
  (forall ev w, E ev -> P w -> P (dispatch ev w)) ->
  forall b w, Forall E b -> P w -> P (wl_display_iterate b w).
Proof.
  intros HI b. unfold wl_display_iterate.
  induction b as [ | ev b IH]; intros w Hb Hw; simpl.
  - exact Hw.
  - inversion Hb; subst. apply IH; [ assumption | ]. apply HI; assumption.
Qed.

Lemma wait_configured_rule (script : list batch) :
  forall w, sent E script -> I0 w -> holds I0 (sent E) (wait_configured script w).
Proof.
  induction script as [ | b rest IH]; intros w Hs Hw; simpl.
  - destruct (configured (win w) =? 0); split; simpl; auto.
  - destruct (configured (win w) =? 0).
    + inversion Hs; subst. apply IH; [ assumption | ].
      apply iterate_rule; assumption.
    + split; simpl; assumption.
Qed.

Lemma create_surface_rule env (script : list batch) (w : world) :
  sent E script -> I0 w -> holds I0 (sent E) (create_surface env script w).
Proof.
  intros Hs Hw. unfold create_surface.
  apply (bind_holds I0 (fun _ => True)).
  - split; [ | destruct (create_surface_open w); exact I ].
    apply (I0_quiet w); [ apply quiet_create_surface_open | exact Hw ].
  - intros _ w1 _ Hw1. destruct (fullscreen (win w1) =? 0).
    + split.
      * eapply I0_quiet; [ apply quiet_create_surface_native | ].
        eapply I0_quiet; [ | exact Hw1 ]. quiet_now.
      * unfold create_surface_native. simpl.
        destruct (make_current_ok env); simpl; auto.
    + apply (bind_holds I0 (sent E)).
      * apply wait_configured_rule; [ exact Hs | ].
        eapply I0_quiet; [ | exact Hw1 ]. quiet_now.
      * intros rest w2 Hrest Hw2. split.
        -- eapply I0_quiet; [ apply quiet_create_surface_native | exact Hw2 ].
        -- unfold create_surface_native. simpl.
           destruct (make_current_ok env); simpl; auto.
Qed.

Lemma startup_rule env argv (script : list batch) :
  sent E script -> I0 (main_init argv) ->
  match startup env argv script with
  | Returned rest w => I1 w /\ sent E rest
  | Fatal w => I0 w
  | Blocked w => I0 w
  end.
Proof.
  intros Hs Hw. unfold startup.
  destruct (connect_ok env); simpl; [ | exact Hw ].
  destruct script as [ | b script].
  - eapply I0_quiet; [ | exact Hw ]. quiet_now.
  - inversion Hs as [ | ? ? Hb Hs']; subst.
    match goal with
    | |- context [wl_display_iterate b ?w0] =>
        assert (H1 : I0 (wl_display_iterate b w0))
    end.
    { apply iterate_rule; [ exact I0_dispatch | exact Hb | ].
      eapply I0_quiet; [ | exact Hw ]. quiet_now. }
    match goal with
    | H : I0 ?w1 |- _ => generalize dependent w1
    end.
    intros w1 H1.
    pose proof (quiet_init_egl env (if fullscreen (win w1) =? 0 then 1 else 0)
                               w1) as Hq.
    destruct (init_egl env (if fullscreen (win w1) =? 0 then 1 else 0) w1)
      as [u w2 | w2 | w2]; simpl in *;
      try (eapply I0_quiet; eassumption).
    assert (H2 : I0 w2) by (eapply I0_quiet; eassumption).
    destruct (create_surface_rule env script w2 Hs' H2) as [H3 Hrest].
    destruct (create_surface env script w2) as [rest w3 | w3 | w3];
      simpl in *; try exact H3.
    pose proof (quiet_init_gl env w3) as Hq3.
    destruct (init_gl env w3) as [u' w4 | w4 | w4]; simpl in *;
      try (eapply I0_quiet; eassumption).
    split; [ | exact Hrest ].
    apply I0_redraw. eapply I0_quiet; eassumption.
Qed.

Lemma main_loop_rule (script : list batch) :
  forall w, sent E script -> I1 w -> I1 (main_loop script w).
Proof.
  induction script as [ | b rest IH]; intros w Hs Hw; simpl.
  - destruct (running w =? 0); [ exact Hw | ].
    eapply I1_quiet; [ apply quiet_signal_int | exact Hw ].
  - destruct (running w =? 0); [ exact Hw | ].
    inversion Hs; subst. apply IH; [ assumption | ].
    apply iterate_rule; assumption.
Qed.
End MainRule.

(** ** What [redraw] does *)

Lemma redraw_log (cb : ptr) (time : Z) (w : world) :
  log (redraw cb time w) =
  WlCallbackAddListener (N.succ (next w))
  :: WlSurfaceFrame (surface (win w)) (N.succ (next w))
  :: (if is_null cb then [] else [WlCallbackDestroy cb])
  ++ EglSwapBuffers (egl_surface (win w))
  :: GlFlush
  :: GlDrawArrays (gl_pos (win w)) (gl_col (win w))
  :: GlClear
  :: GlUniformMatrix4fv (gl_rotation_uniform (win w))
                        (angle_deg time (captured time w))
  :: log w.
Proof.
  unfold redraw, captured.
  destruct (start_time w =? 0), (is_null cb); reflexivity.
Qed.

Lemma redraw_start_time (cb : ptr) (time : Z) (w : world) :
  start_time (redraw cb time w) = captured time w.
Proof.
  unfold redraw, captured.
  destruct (start_time w =? 0), (is_null cb); reflexivity.
Qed.

Lemma redraw_callback (cb : ptr) (time : Z) (w : world) :
  callback (win (redraw cb time w)) = N.succ (next w).
Proof.
  unfold redraw. destruct (start_time w =? 0), (is_null cb); reflexivity.
Qed.

Lemma redraw_geometry (cb : ptr) (time : Z) (w : world) :
  geometry_width (win (redraw cb time w)) = geometry_width (win w)
  /\ geometry_height (win (redraw cb time w)) = geometry_height (win w).
Proof.
  unfold redraw.
  destruct (start_time w =? 0), (is_null cb); split; reflexivity.
Qed.

(** ** The frame scheduler's two states *)

Lemma Idle_main_init (argv : list string) : Idle (main_init argv).
Proof.
  unfold main_init, Idle.
  match goal with
  | |- context [if ?c then _ else _] => destruct c
  end; simpl; auto.
Qed.

Lemma Idle_calm (w w' : world) : calm w w' -> Idle w -> Idle w'.
Proof.
  intros (Hs & Hc & He) (H1 & H2 & H3 & H4 & H5). unfold Idle.
  rewrite (neutral_ext_live _ _ He), (neutral_ext_angles _ _ He), Hs, Hc.
  repeat split; try assumption.
  eapply neutral_ext_well_paced; eassumption.
Qed.

Lemma Idle_quiet (w w' : world) : quiet w w' -> Idle w -> Idle w'.
Proof. intro H. apply Idle_calm, quiet_calm, H. Qed.

Lemma Idle_dispatch (ev : event) (w : world) :
  True -> Idle w -> Idle (dispatch ev w).
Proof.
  intros _ H. apply (Idle_calm w); [ | exact H ].
  apply dispatch_calm. destruct ev; try exact I.
  unfold is_live_callback. destruct H as (H & _). rewrite H. reflexivity.
Qed.

Lemma Idle_redraw (time : Z) (w : world) : Idle w -> Armed (redraw NULL time w).
Proof.
  intros (H1 & H2 & H3 & H4 & H5). unfold Armed.
  rewrite redraw_callback, redraw_log. simpl. rewrite H1. simpl.
  repeat split; auto using N.neq_succ_0.
Qed.

Lemma Armed_calm (w w' : world) : calm w w' -> Armed w -> Armed w'.
Proof.
  intros (Hs & Hc & He) (H1 & H2 & H3). unfold Armed.
  rewrite (neutral_ext_live _ _ He), Hc.
  repeat split; try assumption.
  eapply neutral_ext_well_paced; eassumption.
Qed.

Lemma Armed_quiet (w w' : world) : quiet w w' -> Armed w -> Armed w'.
Proof. intro H. apply Armed_calm, quiet_calm, H. Qed.

(** The transport fires the stored callback or none. *)
Lemma Armed_live (cb : ptr) (w : world) :
  Armed w -> is_live_callback cb w = true -> cb = callback (win w).
Proof.
  intros (H1 & _) H. unfold is_live_callback in H. rewrite H1 in H.
  simpl in H. rewrite orb_false_r in H. apply N.eqb_eq, H.
Qed.

Lemma Armed_redraw (time : Z) (w : world) :
  Armed w -> Armed (redraw (callback (win w)) time w).
Proof.
  intros (H1 & H2 & H3). unfold Armed.
  rewrite redraw_callback, redraw_log.
  apply is_null_false in H2. rewrite H2. simpl. rewrite H1. simpl.
  destruct (N.eq_dec (callback (win w)) (callback (win w))) as [_ | n];
    [ | contradiction n; reflexivity ].
  simpl. repeat split; auto using N.neq_succ_0.
Qed.

Lemma Armed_dispatch (ev : event) (w : world) :
  True -> Armed w -> Armed (dispatch ev w).
Proof.
  intros _ H.
  assert (Hc : match ev with
               | Done cb _ => is_live_callback cb w = false
               | _ => True
               end -> Armed (dispatch ev w)).
  { intro Hq. apply (Armed_calm w); [ apply dispatch_calm, Hq | exact H ]. }
  destruct ev; try (apply Hc; exact I).
  destruct (is_live_callback cb w) eqn:Hl; [ | apply Hc; reflexivity ].
  simpl. rewrite Hl. rewrite (Armed_live cb w H Hl). apply Armed_redraw, H.
Qed.

Lemma destroy_surface_log (w : world) :
  log (destroy_surface w) =
  (if is_null (callback (win w)) then []
   else [WlCallbackDestroy (callback (win w))])
  ++ WlSurfaceDestroy (surface (win w))
  :: WlShellSurfaceDestroy (shell_surface (win w))
  :: WlEglWindowDestroy (native (win w))
  :: log w.
Proof.
  unfold destroy_surface. simpl.
  destruct (is_null (callback (win w))); reflexivity.
Qed.

Lemma destroy_surface_d (w : world) : d (destroy_surface w) = d w.
Proof.
  unfold destroy_surface. simpl.
  destruct (is_null (callback (win w))); reflexivity.
Qed.

Lemma teardown_log (w : world) :
  log (teardown w) =
  WlDisplayDisconnect
  :: WlDisplayFlush
  :: (if is_null (compositor (d w)) then []
      else [WlCompositorDestroy (compositor (d w))])
  ++ (if is_null (shell (d w)) then [] else [WlShellDestroy (shell (d w))])
  ++ EglReleaseThread
  :: EglTerminate
  :: EglMakeCurrent NULL NULL
  :: log (destroy_surface w).
Proof.
  unfold teardown, fini_egl, emit. simpl. rewrite destroy_surface_d.
  destruct (is_null (shell (d w))); simpl;
    destruct (is_null (compositor (d w))); reflexivity.
Qed.

Lemma Armed_teardown (w : world) : Armed w -> well_paced (log (teardown w)).
Proof.
  intros (H1 & H2 & H3). rewrite teardown_log, destroy_surface_log.
  apply is_null_false in H2. rewrite H2.
  destruct (is_null (shell (d w))), (is_null (compositor (d w)));
    simpl; rewrite H1; simpl;
    destruct (N.eq_dec (callback (win w)) (callback (win w))) as [_ | n];
    try (contradiction n; reflexivity);
    simpl; repeat split; auto.
Qed.

Lemma Idle_well_paced (w : world) : Idle w -> well_paced (log w).
Proof. intros (_ & _ & _ & _ & H). exact H. Qed.

Lemma sent_True (script : list batch) : sent (fun _ => True) script.
Proof.
  unfold sent. apply Forall_forall. intros b _.
  apply Forall_forall. intros ev _. exact I.
Qed.

(** In every run the scheduler is armed when the event loop starts. *)
Lemma startup_Armed env argv (script : list batch) :
  match startup env argv script with
  | Returned _ w => Armed w
  | Fatal w => Idle w
  | Blocked w => Idle w
  end.
Proof.
  pose proof (startup_rule (fun _ => True) Idle Armed
                Idle_quiet Idle_dispatch (Idle_redraw 0)
                env argv script (sent_True script) (Idle_main_init argv)) as H.
  destruct (startup env argv script); tauto.
Qed.

Lemma main_loop_Armed (script : list batch) (w : world) :
  Armed w -> Armed (main_loop script w).
Proof.
  apply (main_loop_rule (fun _ => True) Armed Armed_quiet Armed_dispatch).
  apply sent_True.
Qed.

Lemma main_well_paced env argv (script : list batch) :
  well_paced (log (final (main env argv script))).
Proof.
  unfold main. pose proof (startup_Armed env argv script) as H.
  destruct (startup env argv script) as [rest w | w | w]; simpl.
  - apply Armed_teardown, main_loop_Armed, H.
  - apply Idle_well_paced, H.
  - apply Idle_well_paced, H.
Qed.

(** * The claims *)

(** ** Ping *)

(** C9: for every ping event with serial [serial] the ping handler
    sends back exactly one pong carrying the same serial, on the shell
    surface that was pinged, and changes nothing else in the program
    state; the transport runs the handler for pings addressed to the
    window's shell surface. *)
Theorem handle_ping_pongs_same_serial (ss : ptr) (serial : Z) (w : world) :
  requests (handle_ping ss serial w)
  = requests w ++ [WlShellSurfacePong ss serial]
  /\ d (handle_ping ss serial w) = d w
  /\ win (handle_ping ss serial w) = win w
  /\ start_time (handle_ping ss serial w) = start_time w
  /\ running (handle_ping ss serial w) = running w
  /\ next (handle_ping ss serial w) = next w
  /\ dispatch (Ping ss serial) w
     = (if is_shell_surface ss w then handle_ping ss serial w else w).
Proof.
  unfold handle_ping, requests. simpl. repeat split.
Qed.

(** ** Globals *)

(** C7: the global handler binds and stores a new handle exactly for
    the interface names [wl_compositor], [wl_shell] and
    [wl_input_device] (the latter also gets the input listener) and
    leaves the state unchanged for every other name; when the same
    global is announced a second time the stored handle is the one of
    the second bind. *)
Theorem display_handle_global_last_bind_wins
  (id : Z) (interface : string) (version : Z) (w : world) :
  let h1 := N.succ (next w) in
  let w1 := display_handle_global id interface version w in
  let h2 := N.succ (next w1) in
  let w2 := display_handle_global id interface version w1 in
  win w1 = win w /\
  ((interface = "wl_compositor"%string
    /\ compositor (d w1) = h1
    /\ shell (d w1) = shell (d w) /\ input (d w1) = input (d w)
    /\ requests w1 = requests w ++ [WlDisplayBind id "wl_compositor" h1]
    /\ compositor (d w2) = h2 /\ h2 <> h1)
   \/ (interface = "wl_shell"%string
       /\ shell (d w1) = h1
       /\ compositor (d w1) = compositor (d w) /\ input (d w1) = input (d w)
       /\ requests w1 = requests w ++ [WlDisplayBind id "wl_shell" h1]
       /\ shell (d w2) = h2 /\ h2 <> h1)
   \/ (interface = "wl_input_device"%string
       /\ input (d w1) = h1
       /\ compositor (d w1) = compositor (d w) /\ shell (d w1) = shell (d w)
       /\ requests w1 = requests w ++ [WlDisplayBind id "wl_input_device" h1;
                                       WlInputDeviceAddListener h1]
       /\ input (d w2) = h2 /\ h2 <> h1)
   \/ (interface <> "wl_compositor"%string /\ interface <> "wl_shell"%string
       /\ interface <> "wl_input_device"%string /\ w1 = w)).
Proof.
  intros h1 w1 h2 w2. subst h1 w1 h2 w2.
  assert (Hne : forall n : N, N.succ (N.succ n) <> N.succ n).
  { intros n H. apply N.succ_inj in H. exact (N.neq_succ_diag_l n H). }
  destruct (String.eqb_spec interface "wl_compositor"%string) as [-> | n1].
  { split; [ reflexivity | left ].
    unfold requests. simpl. repeat split. apply Hne. }
  destruct (String.eqb_spec interface "wl_shell"%string) as [-> | n2].
  { split; [ reflexivity | right; left ].
    unfold requests. simpl. repeat split. apply Hne. }
  destruct (String.eqb_spec interface "wl_input_device"%string) as [-> | n3].
  { split; [ reflexivity | right; right; left ].
    unfold requests. simpl. rewrite <- app_assoc. repeat split. apply Hne. }
  assert (Hw : display_handle_global id interface version w = w).
  { unfold display_handle_global. rewrite !strcmp_eqb.
    apply String.eqb_neq in n1, n2, n3. rewrite n1, n2, n3. reflexivity. }
  rewrite Hw. split; [ reflexivity | ]. right; right; right. auto.
Qed.

(** ** Teardown *)

(** C6: [destroy_surface] releases the native window, then the shell
    surface, then the surface, then the stored frame callback, and skips
    the last when none is stored; the rest of the teardown releases the
    shell and the compositor only if they were bound. *)
Theorem destroy_surface_release_order (w : world) :
  requests (destroy_surface w)
  = requests w
    ++ [WlEglWindowDestroy (native (win w));
        WlShellSurfaceDestroy (shell_surface (win w));
        WlSurfaceDestroy (surface (win w))]
    ++ (if is_null (callback (win w)) then []
        else [WlCallbackDestroy (callback (win w))])
  /\ requests (teardown w)
     = requests (destroy_surface w)
       ++ [EglMakeCurrent NULL NULL; EglTerminate; EglReleaseThread]
       ++ (if is_null (shell (d w)) then []
           else [WlShellDestroy (shell (d w))])
       ++ (if is_null (compositor (d w)) then []
           else [WlCompositorDestroy (compositor (d w))])
       ++ [WlDisplayFlush; WlDisplayDisconnect].
Proof.
  unfold requests. rewrite teardown_log, destroy_surface_log. split.
  - destruct (is_null (callback (win w))); simpl;
      repeat rewrite <- app_assoc; reflexivity.
  - destruct (is_null (shell (d w))), (is_null (compositor (d w))); simpl;
      repeat rewrite <- app_assoc; reflexivity.
Qed.

(** ** The command line *)

(** C5, evaluated on the code: line 514 compares ["-f"] with [argv[0]],
    the program name, and takes the non-zero result of [strcmp] as
    true.  Fullscreen is therefore selected by any argument at all, for
    instance by [-w], and the flag itself is never looked at. *)
Theorem main_init_fullscreen_on_any_argument :
  fullscreen (win (main_init ["simple-egl"; "-w"]%string)) = 1
  /\ fullscreen (win (main_init ["simple-egl"; "-f"]%string)) = 1
  /\ fullscreen (win (main_init ["simple-egl"]%string)) = 0
  /\ fullscreen (win (main_init ["-f"; "-f"]%string)) = 0
  /\ forall argv : list string,
       fullscreen (win (main_init argv))
       = if (2 <=? Z.of_nat (List.length argv))
            && negb (String.eqb "-f"%string (nth 0 argv EmptyString))
         then 1 else 0.
Proof.
  repeat split; try reflexivity.
  intro argv. unfold main_init. rewrite strcmp_eqb, Z.geb_leb.
  destruct ((2 <=? Z.of_nat (List.length argv))
            && negb (String.eqb "-f"%string (nth 0 argv EmptyString)));
    reflexivity.
Qed.

(** ** The rotation angle *)

Lemma redraw_angles (cb : ptr) (time : Z) (w : world) :
  angles (requests (redraw cb time w))
  = angles (requests w) ++ [angle_deg time (captured time w)].
Proof.
  unfold requests. rewrite !angles_rev, redraw_log.
  destruct (is_null cb); reflexivity.
Qed.

Lemma angle_deg_plain (t s : Z) :
  0 <= s <= t -> t < uint32_mod ->
  angle_deg t s = ((t - s) / speed_div) mod 360.
Proof.
  intros Hs Ht. unfold angle_deg.
  rewrite (Z.mod_small (t - s)); [ reflexivity | lia ].
Qed.

Lemma angle_deg_same (t : Z) : angle_deg t t = 0.
Proof. unfold angle_deg. rewrite Z.sub_diag. reflexivity. Qed.

(** The elapsed time of [redraw], a [uint32_t] difference. *)
Lemma elapsed_range (t s : Z) : 0 <= (t - s) mod uint32_mod < uint32_mod.
Proof. apply Z.mod_pos_bound. reflexivity. Qed.

(** The angle one [speed_div] after an angle of 359 degrees, for any
    timestamp and start time, wrapped or not. *)
Lemma angle_deg_wrap (t s : Z) :
  angle_deg t s = 359 ->
  angle_deg ((t + speed_div) mod uint32_mod) s = 0.
Proof.
  intros Ha. unfold angle_deg in *.
  rewrite Zminus_mod_idemp_l.
  replace (t + speed_div - s) with (t - s + speed_div) by ring.
  rewrite <- Zplus_mod_idemp_l.
  pose proof (elapsed_range t s) as He.
  revert Ha He. generalize ((t - s) mod uint32_mod). intros e Ha He.
  unfold uint32_mod, speed_div in *. change (2 ^ 32) with 4294967296 in *.
  assert (Hq : e / 5 <= 858993119).
  { assert (H1 : e / 5 < 858993460) by (apply Z.div_lt_upper_bound; lia).
    pose proof (Z.div_mod (e / 5) 360 ltac:(lia)) as Hd. rewrite Ha in Hd.
    assert (H2 : e / 5 / 360 < 2386093)
      by (apply Z.div_lt_upper_bound; lia).
    lia. }
  assert (Hlt : e < 858993120 * 5).
  { pose proof (Z.div_mod e 5 ltac:(lia)).
    pose proof (Z.mod_pos_bound e 5 ltac:(lia)). lia. }
  rewrite (Z.mod_small (e + 5)) by lia.
  replace (e + 5) with (e + 1 * 5) by ring.
  rewrite Z.div_add by lia.
  rewrite <- Zplus_mod_idemp_l, Ha. reflexivity.
Qed.

(** C3, amended: with the start time captured, the angle [redraw]
    uploads for the callback timestamp [t] is
    [(e / speed_div) mod 360] whole degrees with [speed_div = 5], where
    the elapsed time [e] is the [uint32_t] difference
    [(t - start_time) mod 2^32], which is the plain difference when [t]
    is not before the start time; the angle lies in [0, 360); the count
    of whole degrees never decreases as the elapsed time grows and the
    angle is that count modulo 360; an elapsed time of [0] gives 0
    degrees, of [speed_div] gives 1 degree and of [5 * speed_div] gives
    5 degrees; and one [speed_div] after an angle of 359 degrees the
    angle is 0 again. *)
Theorem redraw_angle_wraps_at_360 (cb : ptr) (t : Z) (w : world) :
  start_time w <> 0 ->
  let e := (t - start_time w) mod uint32_mod in
  let a := angle_deg t (start_time w) in
  angles (requests (redraw cb t w)) = angles (requests w) ++ [a]
  /\ start_time (redraw cb t w) = start_time w
  /\ a = (e / speed_div) mod 360
  /\ (start_time w <= t < start_time w + uint32_mod ->
      e = t - start_time w)
  /\ 0 <= a < 360
  /\ (forall t',
        e <= (t' - start_time w) mod uint32_mod ->
        e / speed_div <= (t' - start_time w) mod uint32_mod / speed_div
        /\ angle_deg t' (start_time w)
           = ((t' - start_time w) mod uint32_mod / speed_div) mod 360)
  /\ (e = 0 -> a = 0)
  /\ (e = speed_div -> a = 1)
  /\ (e = 5 * speed_div -> a = 5)
  /\ (a = 359 ->
      angle_deg ((t + speed_div) mod uint32_mod) (start_time w) = 0).
Proof.
  intros Hs e a.
  assert (Hcap : captured t w = start_time w).
  { unfold captured.
    destruct (Z.eqb_spec (start_time w) 0); [ contradiction | reflexivity ]. }
  assert (Ha : a = (e / speed_div) mod 360) by reflexivity.
  split; [ rewrite redraw_angles, Hcap; reflexivity | ].
  split; [ rewrite redraw_start_time; exact Hcap | ].
  split; [ exact Ha | ].
  split; [ intro Ht; subst e; apply Z.mod_small; lia | ].
  split; [ rewrite Ha; apply Z.mod_pos_bound; lia | ].
  split.
  { intros t' Ht'. split; [ | reflexivity ].
    apply Z.div_le_mono; [ unfold speed_div; lia | exact Ht' ]. }
  split; [ intro E; rewrite Ha, E; reflexivity | ].
  split; [ intro E; rewrite Ha, E; reflexivity | ].
  split; [ intro E; rewrite Ha, E; reflexivity | ].
  intro E. apply angle_deg_wrap, E.
Qed.

Lemma redraw_angle_wraps_at_360_witness :
  start_time (clock_at 4294967295) <> 0
  /\ angles (requests (redraw NULL 1794 (clock_at 4294967295)))
     = angles (requests (clock_at 4294967295)) ++ [359]
  /\ angle_deg ((1794 + speed_div) mod uint32_mod) 4294967295 = 0.
Proof.
  assert (H1 : start_time (clock_at 4294967295) <> 0) by discriminate.
  split; [ exact H1 | ].
  destruct (redraw_angle_wraps_at_360 NULL 1794 (clock_at 4294967295) H1)
    as (Ha & _ & _ & _ & _ & _ & _ & _ & _ & Hw).
  split; [ exact Ha | apply Hw; reflexivity ].
Defined.

(** C3 as stated fails twice.  At an elapsed time of [5 * speed_div]
    the angle uploaded is 5 degrees, four whole degrees away from 1.
    And for a timestamp before the start time, as after the wrap of the
    32-bit clock, the angle is not the integer formula's: at timestamp
    999 with start time 1000 the code uploads 339 degrees, where
    [((t - start_time) / speed_div) mod 360] is 359 with the quotient
    rounded down and 0 with C's quotient. *)
Lemma claimed_angles_differ_from_code :
  1025 - start_time (clock_at 1000) = 5 * speed_div
  /\ angles (requests (redraw NULL 1025 (clock_at 1000))) = [5]
  /\ ~ about_one_degree 5
  /\ start_time (clock_at 1000) <> 0
  /\ angles (requests (redraw NULL 999 (clock_at 1000))) = [339]
  /\ ((999 - start_time (clock_at 1000)) / speed_div) mod 360 = 359
  /\ (Z.quot (999 - start_time (clock_at 1000)) speed_div) mod 360 = 0.
Proof.
  split; [ reflexivity | ]. split; [ vm_compute; reflexivity | ].
  split; [ unfold about_one_degree; simpl; lia | ].
  split; [ discriminate | ].
  repeat match goal with |- _ /\ _ => split end; vm_compute; reflexivity.
Qed.

(** ** The start time and its sentinel *)

Lemma redraw_all_keeps_start (calls : list (ptr * Z)) :
  forall w, start_time w <> 0 ->
            start_time (redraw_all calls w) = start_time w.
Proof.
  unfold redraw_all.
  induction calls as [ | [cb t] calls IH]; intros w Hw; simpl.
  - reflexivity.
  - assert (Hc : start_time (redraw cb t w) = start_time w).
    { rewrite redraw_start_time. unfold captured.
      destruct (Z.eqb_spec (start_time w) 0); [ contradiction | reflexivity ]. }
    rewrite IH; [ exact Hc | rewrite Hc; exact Hw ].
Qed.

Lemma redraw_all_captures (calls : list (ptr * Z)) :
  forall w, start_time w = 0 ->
            start_time (redraw_all calls w) = first_nonzero (map snd calls).
Proof.
  induction calls as [ | [cb t] calls IH]; intros w Hw.
  - exact Hw.
  - change (redraw_all ((cb, t) :: calls) w)
      with (redraw_all calls (redraw cb t w)).
    assert (Hc : start_time (redraw cb t w) = t).
    { rewrite redraw_start_time. unfold captured. rewrite Hw. reflexivity. }
    simpl. destruct (Z.eqb_spec t 0) as [e | n].
    + apply IH. rewrite Hc. exact e.
    + rewrite redraw_all_keeps_start; [ exact Hc | rewrite Hc; exact n ].
Qed.

(** After start-up the clock is still unset and one frame was drawn,
    at angle 0. *)
Lemma startup_clock env argv (script rest : list batch) (w : world) :
  startup env argv script = Returned rest w ->
  start_time w = 0 /\ angles (requests w) = [0].
Proof.
  intro H.
  pose proof (startup_rule (fun _ => True) Idle
                (fun w => start_time w = 0 /\ angles (requests w) = [0])
                Idle_quiet Idle_dispatch) as R.
  specialize (R ltac:(
    intros w0 (_ & _ & H3 & H4 & _);
    rewrite redraw_start_time, redraw_angles; unfold captured, requests;
    rewrite angles_rev, H3, H4; split; reflexivity)).
  specialize (R env argv script (sent_True script) (Idle_main_init argv)).
  rewrite H in R. tauto.
Qed.

(** C10: [0] is the "unset" value of the start time.  In every run the
    synthetic first frame (time 0) leaves it unset and is drawn at
    angle 0; over the frame callbacks that follow, the start time is the
    first timestamp that is not 0; a callback whose timestamp is 0
    leaves it unset like the synthetic frame did; and the first
    callback after start-up is drawn at angle 0 whatever its
    timestamp. *)
Theorem start_time_zero_means_unset env argv (script rest : list batch)
  (w : world) (calls : list (ptr * Z)) (cb : ptr) (t : Z) :
  startup env argv script = Returned rest w ->
  start_time w = 0
  /\ angles (requests w) = [0]
  /\ start_time (redraw_all calls w) = first_nonzero (map snd calls)
  /\ start_time (redraw cb 0 w) = 0
  /\ start_time (redraw cb t w) = t
  /\ angles (requests (redraw cb t w)) = [0; 0].
Proof.
  intro H. destruct (startup_clock env argv script rest w H) as [Hs Ha].
  assert (Hc : forall u, captured u w = u).
  { intro u. unfold captured. rewrite Hs. reflexivity. }
  split; [ exact Hs | ]. split; [ exact Ha | ].
  split; [ apply redraw_all_captures, Hs | ].
  split; [ rewrite redraw_start_time; apply Hc | ].
  split; [ rewrite redraw_start_time; apply Hc | ].
  rewrite redraw_angles, Ha, Hc, angle_deg_same. reflexivity.
Qed.

(** ** Frame pacing *)

Lemma redraw_requests (cb : ptr) (time : Z) (w : world) :
  requests (redraw cb time w)
  = requests w
    ++ [GlUniformMatrix4fv (gl_rotation_uniform (win w))
                           (angle_deg time (captured time w));
        GlClear;
        GlDrawArrays (gl_pos (win w)) (gl_col (win w));
        GlFlush;
        EglSwapBuffers (egl_surface (win w))]
    ++ (if is_null cb then [] else [WlCallbackDestroy cb])
    ++ [WlSurfaceFrame (surface (win w)) (callback (win (redraw cb time w)));
        WlCallbackAddListener (callback (win (redraw cb time w)))].
Proof.
  unfold requests. rewrite redraw_callback, redraw_log.
  destruct (is_null cb); simpl; repeat rewrite <- app_assoc; reflexivity.
Qed.

(** C2: in every run of [main], and at every request [r] of it: never
    are two frame callbacks alive; a new frame is requested only when
    no frame callback is alive, the one that fired having been
    destroyed; and when [redraw] puts the listener on the new callback,
    which is the last thing it does, that callback is the only one
    alive.  Every invocation of [redraw] has this shape: it renders,
    destroys the callback it was given, requests one frame and puts the
    listener on it. *)
Theorem frame_requests_never_overlap env argv (script : list batch)
  (p s : list request) (r : request) (cb : ptr) (time : Z) (w : world) :
  requests (final (main env argv script)) = p ++ r :: s ->
  (List.length (outstanding_after (p ++ [r])) <= 1)%nat
  /\ match r with
     | WlSurfaceFrame _ _ => outstanding_after p = []
     | WlCallbackAddListener h => outstanding_after (p ++ [r]) = [h]
     | _ => True
     end
  /\ requests (redraw cb time w)
     = requests w
       ++ [GlUniformMatrix4fv (gl_rotation_uniform (win w))
                              (angle_deg time (captured time w));
           GlClear;
           GlDrawArrays (gl_pos (win w)) (gl_col (win w));
           GlFlush;
           EglSwapBuffers (egl_surface (win w))]
       ++ (if is_null cb then [] else [WlCallbackDestroy cb])
       ++ [WlSurfaceFrame (surface (win w)) (callback (win (redraw cb time w)));
           WlCallbackAddListener (callback (win (redraw cb time w)))].
Proof.
  intro H.
  destruct (well_paced_chronological _ (main_well_paced env argv script)
              p r s H) as [Hp Hl].
  split; [ exact Hl | ]. split; [ | apply redraw_requests ].
  destruct r; try exact I; try exact Hp.
  unfold outstanding_after in *. rewrite rev_app_distr. simpl. exact Hp.
Qed.

(** ** Surface negotiation *)

Lemma native_windows_app (a b : list request) :
  native_windows (a ++ b) = native_windows a ++ native_windows b.
Proof.
  induction a as [ | r a IH]; simpl; [ reflexivity | ].
  destruct r; simpl; rewrite IH; reflexivity.
Qed.

Lemma native_windows_rev (l : list request) :
  native_windows (rev l) = rev (native_windows l).
Proof.
  induction l as [ | r l IH]; simpl; [ reflexivity | ].
  rewrite native_windows_app, IH.
  destruct r; simpl; try apply app_nil_r; reflexivity.
Qed.

Ltac split_ifs :=
  repeat match goal with
         | |- context [if ?c then _ else _] => destruct c
         end.

(** No handler creates a native window or replaces the shell surface,
    and only [handle_configure] writes [configured]. *)
Lemma dispatch_surface (ev : event) (w : world) :
  shell_surface (win (dispatch ev w)) = shell_surface (win w)
  /\ native_windows (log (dispatch ev w)) = native_windows (log w)
  /\ configured (win (dispatch ev w))
     = match ev with
       | Configure ss _ _ _ =>
           if is_shell_surface ss w then 1 else configured (win w)
       | _ => configured (win w)
       end.
Proof.
  destruct ev; simpl;
    unfold display_handle_global, event_mask_update, handle_ping,
      handle_configure, handle_popup_done, input_handle_pointer_enter, redraw;
    split_ifs; simpl; repeat split.
Qed.

Lemma iterate_surface (ss : ptr) (b : batch) :
  forall w, ss <> NULL -> shell_surface (win w) = ss ->
    shell_surface (win (wl_display_iterate b w)) = ss
    /\ native_windows (log (wl_display_iterate b w)) = native_windows (log w)
    /\ configured (win (wl_display_iterate b w))
       = if has_configure ss b then 1
         else configured (win w).
Proof.
  unfold wl_display_iterate.
  induction b as [ | ev b IH]; intros w Hn Hss; simpl.
  - auto.
  - destruct (dispatch_surface ev w) as (H1 & H2 & H3).
    destruct (IH (dispatch ev w) Hn) as (K1 & K2 & K3); [ congruence | ].
    split; [ exact K1 | ]. split; [ congruence | ].
    rewrite K3. destruct (has_configure ss b) eqn:Hb.
    + rewrite orb_true_r. reflexivity.
    + rewrite orb_false_r, H3.
      destruct ev; try reflexivity.
      unfold is_shell_surface. rewrite Hss.
      destruct (N.eqb_spec ss0 ss) as [e | n]; [ | rewrite andb_false_r; reflexivity ].
      subst ss0. apply is_null_false in Hn. rewrite Hn. reflexivity.
Qed.

(** The wait of the fullscreen branch ends exactly when a batch with a
    configure event for the shell surface has been dispatched. *)
Lemma wait_configured_spec (ss : ptr) (script : list batch) :
  forall w, ss <> NULL -> shell_surface (win w) = ss -> configured (win w) = 0 ->
    if existsb (has_configure ss) script
    then exists rest w',
        wait_configured script w = Returned rest w'
        /\ configured (win w') <> 0
        /\ native_windows (log w') = native_windows (log w)
    else exists w',
        wait_configured script w = Blocked w'
        /\ configured (win w') = 0
        /\ native_windows (log w') = native_windows (log w).
Proof.
  induction script as [ | b rest IH]; intros w Hn Hss Hc; simpl; rewrite Hc; simpl.
  - exists w. auto.
  - destruct (iterate_surface ss b w Hn Hss) as (H1 & H2 & H3).
    destruct (has_configure ss b) eqn:Hb; simpl.
    + destruct rest as [ | b' rest']; simpl; rewrite H3; simpl;
        eexists; eexists; (split; [ reflexivity | ]);
        (split; [ rewrite H3; discriminate | exact H2 ]).
    + rewrite Hc in H3. specialize (IH _ Hn H1 H3).
      destruct (existsb (has_configure ss) rest).
      * destruct IH as (r' & w' & K1 & K2 & K3).
        exists r', w'. repeat split; [ exact K1 | exact K2 | congruence ].
      * destruct IH as (w' & K1 & K2 & K3).
        exists w'. repeat split; [ exact K1 | exact K2 | congruence ].
Qed.

Lemma create_surface_native_windows {A} env (a : A) (w : world) :
  native_windows (requests (final (create_surface_native env a w)))
  = native_windows (requests w)
    ++ [(geometry_width (win w), geometry_height (win w))].
Proof.
  unfold requests, create_surface_native. simpl.
  destruct (make_current_ok env); simpl;
    rewrite !native_windows_app; simpl; rewrite !app_nil_r; reflexivity.
Qed.

Lemma run_batches_surface (ss : ptr) (bs : list batch) :
  forall w, ss <> NULL -> shell_surface (win w) = ss ->
    shell_surface (win (run_batches bs w)) = ss
    /\ native_windows (log (run_batches bs w)) = native_windows (log w)
    /\ configured (win (run_batches bs w))
       = if existsb (has_configure ss) bs then 1 else configured (win w).
Proof.
  unfold run_batches.
  induction bs as [ | b bs IH]; intros w Hn Hss; simpl; [ auto | ].
  destruct (iterate_surface ss b w Hn Hss) as (H1 & H2 & H3).
  destruct (IH (wl_display_iterate b w) Hn H1) as (K1 & K2 & K3).
  split; [ exact K1 | ]. split; [ congruence | ].
  rewrite K3, H3. destruct (has_configure ss b), (existsb (has_configure ss) bs);
    reflexivity.
Qed.

Lemma wait_configured_done (script : list batch) (w : world) :
  configured (win w) <> 0 -> wait_configured script w = Returned script w.
Proof.
  intro H. apply Z.eqb_neq in H. destruct script; simpl; rewrite H; reflexivity.
Qed.

(** The wait of the fullscreen branch dispatches the batches one by
    one, up to and including the first that carries a configure event
    for the shell surface, and hands back the batches after it; with no
    such batch it dispatches them all and stays in the wait. *)
Lemma wait_configured_exact (ss : ptr) (script : list batch) :
  forall w, ss <> NULL -> shell_surface (win w) = ss -> configured (win w) = 0 ->
    if existsb (has_configure ss) script
    then exists before b rest,
        script = before ++ b :: rest
        /\ existsb (has_configure ss) before = false
        /\ has_configure ss b = true
        /\ wait_configured script w
           = Returned rest (run_batches (before ++ [b]) w)
    else wait_configured script w = Blocked (run_batches script w).
Proof.
  induction script as [ | b rest IH]; intros w Hn Hss Hc; simpl; rewrite Hc; simpl.
  - reflexivity.
  - destruct (iterate_surface ss b w Hn Hss) as (H1 & H2 & H3).
    destruct (has_configure ss b) eqn:Hb; simpl.
    + exists [], b, rest. split; [ reflexivity | ]. split; [ reflexivity | ].
      split; [ exact Hb | ].
      change (run_batches ([] ++ [b]) w) with (wl_display_iterate b w).
      apply wait_configured_done. rewrite H3. discriminate.
    + rewrite Hc in H3. specialize (IH _ Hn H1 H3).
      destruct (existsb (has_configure ss) rest).
      * destruct IH as (before & b0 & rest0 & E & Hbf & Hb0 & Hw).
        exists (b :: before), b0, rest0. simpl. rewrite Hb, Hbf.
        split; [ rewrite E; reflexivity | ]. split; [ reflexivity | ].
        split; [ exact Hb0 | exact Hw ].
      * exact IH.
Qed.

(** C4: with the compositor and the shell bound, [create_surface] opens
    the surface and then: in windowed mode it goes on to create the
    native window at once, at the geometry it was called with, whatever
    [configured] is and without dispatching anything; in fullscreen
    mode it clears [configured], requests fullscreen and dispatches the
    batches one by one, [configured] staying clear, up to and including
    the first batch that carries a configure event for the shell
    surface, and creates the native window only then, from the state
    that batch leaves, in which [configured] is set, handing the batches
    after it back; when no batch carries such an event it dispatches
    them all and stays in the wait with [configured] clear and no
    native window created. *)
Theorem create_surface_waits_only_when_fullscreen env (script : list batch)
  (w : world) :
  compositor (d w) <> NULL -> shell (d w) <> NULL ->
  exists w0,
    create_surface_open w = Returned tt w0
    /\ (forall (rest : list batch) (w1 : world),
          native_windows (requests (final (create_surface_native env rest w1)))
          = native_windows (requests w1)
            ++ [(geometry_width (win w1), geometry_height (win w1))])
    /\ if fullscreen (win w) =? 0 then
         exists w1,
           w1 = emit (WlShellSurfaceSetToplevel (shell_surface (win w0))) w0
           /\ create_surface env script w = create_surface_native env script w1
           /\ geometry_width (win w1) = geometry_width (win w)
           /\ geometry_height (win w1) = geometry_height (win w)
           /\ configured (win w1) = configured (win w)
           /\ native_windows (requests w1) = native_windows (requests w)
       else
         exists w_fs,
           w_fs = emit (WlShellSurfaceSetFullscreen (shell_surface (win w0)))
                       (upd_win (set_configured 0) w0)
           /\ configured (win w_fs) = 0
           /\ if existsb (has_configure (shell_surface (win w0))) script then
                exists before b rest w1,
                  script = before ++ b :: rest
                  /\ existsb (has_configure (shell_surface (win w0))) before
                     = false
                  /\ has_configure (shell_surface (win w0)) b = true
                  /\ configured (win (run_batches before w_fs)) = 0
                  /\ w1 = run_batches (before ++ [b]) w_fs
                  /\ create_surface env script w
                     = create_surface_native env rest w1
                  /\ configured (win w1) <> 0
                  /\ native_windows (requests w1) = native_windows (requests w)
              else
                exists w',
                  w' = run_batches script w_fs
                  /\ create_surface env script w = Blocked w'
                  /\ configured (win w') = 0
                  /\ native_windows (requests w') = native_windows (requests w).
Proof.
  intros Hc Hs. apply is_null_false in Hc, Hs.
  assert (Hopen : exists w0,
             create_surface_open w = Returned tt w0
             /\ fullscreen (win w0) = fullscreen (win w)
             /\ geometry_width (win w0) = geometry_width (win w)
             /\ geometry_height (win w0) = geometry_height (win w)
             /\ configured (win w0) = configured (win w)
             /\ shell_surface (win w0) <> NULL
             /\ native_windows (log w0) = native_windows (log w)).
  { unfold create_surface_open. rewrite Hc. simpl. rewrite Hs. simpl.
    eexists. split; [ reflexivity | ]. simpl.
    repeat split. apply N.neq_succ_0. }
  destruct Hopen as (w0 & Ho & Hf & Hgw & Hgh & Hcf & Hss & Hnw).
  exists w0. split; [ exact Ho | ].
  split; [ intros rest w1; apply create_surface_native_windows | ].
  unfold create_surface. rewrite Ho. simpl. rewrite Hf.
  destruct (fullscreen (win w) =? 0).
  - eexists. split; [ reflexivity | ]. split; [ reflexivity | ].
    unfold requests. simpl.
    rewrite !native_windows_app. simpl. rewrite app_nil_r, !native_windows_rev.
    repeat split; congruence.
  - set (w_fs := emit (WlShellSurfaceSetFullscreen (shell_surface (win w0)))
                      (upd_win (set_configured 0) w0)).
    assert (Hfs : shell_surface (win w_fs) = shell_surface (win w0))
      by reflexivity.
    assert (Hnf : native_windows (log w_fs) = native_windows (log w))
      by exact Hnw.
    exists w_fs. split; [ reflexivity | ]. split; [ reflexivity | ].
    pose proof (wait_configured_exact (shell_surface (win w0)) script w_fs
                  Hss Hfs eq_refl) as Hw.
    change (wait_configured script
              (emit (WlShellSurfaceSetFullscreen
                       (shell_surface (win (upd_win (set_configured 0) w0))))
                    (upd_win (set_configured 0) w0)))
      with (wait_configured script w_fs).
    destruct (existsb (has_configure (shell_surface (win w0))) script).
    + destruct Hw as (before & b & rest & E & Hbf & Hb & K).
      exists before, b, rest, (run_batches (before ++ [b]) w_fs).
      destruct (run_batches_surface (shell_surface (win w0)) before w_fs
                  Hss Hfs) as (_ & _ & B3).
      destruct (run_batches_surface (shell_surface (win w0)) (before ++ [b])
                  w_fs Hss Hfs) as (_ & A2 & A3).
      rewrite Hbf in B3. rewrite existsb_app, Hbf in A3. simpl in A3.
      rewrite Hb in A3. simpl in A3.
      rewrite K. simpl.
      split; [ exact E | ]. split; [ exact Hbf | ]. split; [ exact Hb | ].
      split; [ exact B3 | ]. split; [ reflexivity | ].
      split; [ reflexivity | ].
      split; [ rewrite A3; discriminate | ].
      unfold requests. rewrite !native_windows_rev. congruence.
    + destruct (run_batches_surface (shell_surface (win w0)) script w_fs
                  Hss Hfs) as (_ & A2 & A3).
      destruct (existsb (has_configure (shell_surface (win w0))) script)
        eqn:Hex.
      * pose proof (wait_configured_exact (shell_surface (win w0)) script
                      w_fs Hss Hfs eq_refl) as Hw'.
        rewrite Hex in Hw'.
        destruct Hw' as (? & ? & ? & _ & _ & _ & Hw'). congruence.
      * exists (run_batches script w_fs). rewrite Hw. simpl.
        split; [ reflexivity | ]. split; [ reflexivity | ].
        split; [ exact A3 | ].
        unfold requests. rewrite !native_windows_rev. congruence.
Qed.

(** ** Geometry *)

Lemma dispatch_geometry (ev : event) (w : world) :
  (geometry_width (win (dispatch ev w)), geometry_height (win (dispatch ev w)))
  = match ev with
    | Configure ss _ width height =>
        if is_shell_surface ss w then (width, height)
        else (geometry_width (win w), geometry_height (win w))
    | _ => (geometry_width (win w), geometry_height (win w))
    end.
Proof.
  destruct ev; simpl;
    unfold display_handle_global, event_mask_update, handle_ping,
      handle_configure, handle_popup_done, input_handle_pointer_enter, redraw;
    split_ifs; reflexivity.
Qed.

Lemma positive_quiet (w w' : world) :
  quiet w w' -> positive_geometry w -> positive_geometry w'.
Proof.
  intros (_ & Hw & Hh) [H1 H2]. unfold positive_geometry.
  rewrite Hw, Hh. auto.
Qed.

Lemma positive_dispatch (ev : event) (w : world) :
  well_sized ev -> positive_geometry w -> positive_geometry (dispatch ev w).
Proof.
  intros He Hw. pose proof (dispatch_geometry ev w) as H.
  unfold positive_geometry.
  change (0 < fst (geometry_width (win (dispatch ev w)),
                   geometry_height (win (dispatch ev w)))
          /\ 0 < snd (geometry_width (win (dispatch ev w)),
                      geometry_height (win (dispatch ev w)))).
  rewrite H.
  destruct ev as [ | | | ss0 edges wd ht | | | | ]; simpl in He;
    try exact Hw.
  destruct (is_shell_surface ss0 w); [ exact He | exact Hw ].
Qed.

Lemma positive_redraw (cb : ptr) (time : Z) (w : world) :
  positive_geometry w -> positive_geometry (redraw cb time w).
Proof.
  unfold positive_geometry. destruct (redraw_geometry cb time w) as [Hw Hh].
  rewrite Hw, Hh. auto.
Qed.

Lemma destroy_surface_win (w : world) : win (destroy_surface w) = win w.
Proof.
  unfold destroy_surface. simpl.
  destruct (is_null (callback (win w))); reflexivity.
Qed.

Lemma teardown_win (w : world) : win (teardown w) = win w.
Proof.
  rewrite <- (destroy_surface_win w). unfold teardown.
  generalize (destroy_surface w). intro u. unfold fini_egl.
  destruct (is_null (shell (d (emit EglReleaseThread
                                 (emit EglTerminate
                                    (emit (EglMakeCurrent NULL NULL) u))))));
    match goal with
    | |- context [is_null (compositor (d ?x))] =>
        destruct (is_null (compositor (d x)))
    end; reflexivity.
Qed.

(** C8, amended: the geometry is 250 by 250 when [main] starts; every
    configure event the window's shell surface receives overwrites it
    with the width and height the server supplies, whatever they are,
    and sets [configured]; so the geometry is positive in every state a
    run reaches as long as every configure event of the run carries a
    positive width and height. *)
Theorem geometry_follows_configure env argv (script : list batch)
  (ss : ptr) (edges width height : Z) (w : world) :
  sent well_sized script ->
  positive_geometry (final (startup env argv script))
  /\ positive_geometry (final (main env argv script))
  /\ geometry_width (win (main_init argv)) = 250
  /\ geometry_height (win (main_init argv)) = 250
  /\ geometry_width (win (handle_configure ss edges width height w)) = width
  /\ geometry_height (win (handle_configure ss edges width height w)) = height
  /\ configured (win (handle_configure ss edges width height w)) = 1
  /\ dispatch (Configure ss edges width height) w
     = (if is_shell_surface ss w
        then handle_configure ss edges width height w else w).
Proof.
  intro Hs.
  assert (Hi : geometry_width (win (main_init argv)) = 250
               /\ geometry_height (win (main_init argv)) = 250).
  { unfold main_init. split_ifs; split; reflexivity. }
  assert (H0 : positive_geometry (main_init argv)).
  { unfold positive_geometry. destruct Hi as [Hw Hh]. rewrite Hw, Hh.
    split; reflexivity. }
  pose proof (startup_rule well_sized positive_geometry positive_geometry
                positive_quiet positive_dispatch (positive_redraw NULL 0)
                env argv script Hs H0) as R.
  assert (Hst : positive_geometry (final (startup env argv script))).
  { destruct (startup env argv script); simpl; tauto. }
  split; [ exact Hst | ]. split.
  { unfold main. destruct (startup env argv script) as [rest w1 | w1 | w1];
      simpl; try exact Hst.
    unfold positive_geometry. rewrite teardown_win.
    apply (main_loop_rule well_sized positive_geometry
             positive_quiet positive_dispatch); tauto. }
  destruct Hi as [Hw Hh].
  repeat split; assumption.
Qed.

Lemma geometry_follows_configure_witness :
  sent well_sized [announce; [Configure 8%N 0 300 200]]
  /\ positive_geometry
       (final (main all_ok argv_windowed [announce; [Configure 8%N 0 300 200]]))
  /\ geometry_width
       (win (final (main all_ok argv_windowed
                         [announce; [Configure 8%N 0 300 200]]))) = 300.
Proof.
  assert (Hs : sent well_sized [announce; [Configure 8%N 0 300 200]]).
  { unfold sent, announce.
    repeat (apply Forall_cons || apply Forall_nil); simpl; auto; split; reflexivity. }
  split; [ exact Hs | ].
  split; [ | vm_compute; reflexivity ].
  destruct (geometry_follows_configure all_ok argv_windowed
              [announce; [Configure 8%N 0 300 200]] 8%N 0 300 200
              (main_init argv_windowed) Hs) as (_ & H & _).
  exact H.
Defined.

(** C8 as stated fails when the server configures a size of zero: the
    run stores it, and the geometry is no longer positive. *)
Lemma zero_size_configure_is_stored :
  geometry_width (win (final (main all_ok argv_windowed zero_size))) = 0
  /\ geometry_height (win (final (main all_ok argv_windowed zero_size))) = 0
  /\ ~ positive_geometry (final (main all_ok argv_windowed zero_size)).
Proof.
  split; [ vm_compute; reflexivity | ]. split; [ vm_compute; reflexivity | ].
  intros [H _]. vm_compute in H. discriminate H.
Qed.

(** ** End to end *)

(** C1, amended: in the scenario the synthetic first frame is drawn
    before the event loop.  The frame callback at time 100 then draws
    exactly one more frame, at a rotation angle of 0 degrees because the
    start time is captured from that very callback; it destroys the
    callback that fired and re-arms exactly one new frame request as
    its last step.  The viewport is the one [init_gl] set: 300 by 200
    in fullscreen mode, where the configure is dispatched during
    negotiation; in windowed mode the configure arrives in the event
    loop, the stored geometry becomes 300 by 200 and the viewport stays
    250 by 250. *)
Theorem end_to_end_callback_frame_at_angle_zero :
  startup all_ok argv_fullscreen end_to_end
  = Returned [[Done 13%N 100]] fullscreen_started
  /\ frames fullscreen_started = [(300, 200, 0)]
  /\ outstanding_after (requests fullscreen_started) = [13%N]
  /\ requests (wl_display_iterate [Done 13%N 100] fullscreen_started)
     = requests fullscreen_started
       ++ [GlUniformMatrix4fv 12%N 0; GlClear; GlDrawArrays 1 0; GlFlush;
           EglSwapBuffers 10%N;
           WlCallbackDestroy 13%N;
           WlSurfaceFrame 7%N 14%N; WlCallbackAddListener 14%N]
  /\ frames (wl_display_iterate [Done 13%N 100] fullscreen_started)
     = [(300, 200, 0); (300, 200, 0)]
  /\ start_time (wl_display_iterate [Done 13%N 100] fullscreen_started) = 100
  /\ outstanding_after
       (requests (wl_display_iterate [Done 13%N 100] fullscreen_started))
     = [14%N]
  /\ frames (final (main all_ok argv_fullscreen end_to_end))
     = [(300, 200, 0); (300, 200, 0)]
  /\ startup all_ok argv_windowed end_to_end
     = Returned [[Configure 8%N 0 300 200]; [Done 13%N 100]] windowed_started
  /\ frames windowed_started = [(250, 250, 0)]
  /\ geometry_width (win windowed_configured) = 300
  /\ geometry_height (win windowed_configured) = 200
  /\ requests (wl_display_iterate [Done 13%N 100] windowed_configured)
     = requests windowed_started
       ++ [GlUniformMatrix4fv 12%N 0; GlClear; GlDrawArrays 1 0; GlFlush;
           EglSwapBuffers 10%N;
           WlCallbackDestroy 13%N;
           WlSurfaceFrame 7%N 14%N; WlCallbackAddListener 14%N]
  /\ frames (wl_display_iterate [Done 13%N 100] windowed_configured)
     = [(250, 250, 0); (250, 250, 0)]
  /\ frames (final (main all_ok argv_windowed end_to_end))
     = [(250, 250, 0); (250, 250, 0)].
Proof.
  repeat match goal with |- _ /\ _ => split end; vm_compute; reflexivity.
Qed.

(** C1 as stated fails in the scenario: two frames are presented, not
    one, and neither is at 20 degrees. *)
Lemma end_to_end_no_frame_at_20_degrees :
  frames (final (main all_ok argv_fullscreen end_to_end)) <> [(300, 200, 20)]
  /\ ~ In (300, 200, 20) (frames (final (main all_ok argv_fullscreen end_to_end)))
  /\ frames (final (main all_ok argv_windowed end_to_end)) <> [(300, 200, 20)]
  /\ ~ In (300, 200, 20) (frames (final (main all_ok argv_windowed end_to_end))).
Proof.
  repeat match goal with |- _ /\ _ => split end; vm_compute; intro H;
    try discriminate H;
    repeat (destruct H as [H | H]; [ discriminate H | ]); exact H.
Qed.

(** ** The theorems at concrete inputs *)

Lemma frame_requests_never_overlap_witness :
  requests (final (main all_ok argv_fullscreen end_to_end))
  = firstn 39 (requests (final (main all_ok argv_fullscreen end_to_end)))
    ++ WlSurfaceFrame 7%N 14%N
    :: skipn 40 (requests (final (main all_ok argv_fullscreen end_to_end)))
  /\ outstanding_after
       (firstn 39 (requests (final (main all_ok argv_fullscreen end_to_end))))
     = [].
Proof.
  assert (H : requests (final (main all_ok argv_fullscreen end_to_end))
              = firstn 39 (requests (final (main all_ok argv_fullscreen
                                                 end_to_end)))
                ++ WlSurfaceFrame 7%N 14%N
                :: skipn 40 (requests (final (main all_ok argv_fullscreen
                                                   end_to_end))))
    by (vm_compute; reflexivity).
  split; [ exact H | ].
  destruct (frame_requests_never_overlap all_ok argv_fullscreen end_to_end
              _ _ _ NULL 0 fullscreen_started H) as (_ & Hp & _).
  exact Hp.
Defined.

Lemma create_surface_waits_only_when_fullscreen_witness :
  (compositor (d (bound argv_fullscreen)) <> NULL
   /\ shell (d (bound argv_fullscreen)) <> NULL)
  /\ native_windows
       (requests (final (create_surface all_ok
                           [[Ping 4%N 7]; [Configure 4%N 0 300 200]; []]
                           (bound argv_fullscreen))))
     = [(300, 200)]
  /\ exists w0,
      create_surface_open (bound argv_fullscreen) = Returned tt w0
      /\ shell_surface (win w0) = 4%N
      /\ exists w_fs before b rest w1,
          [[Ping 4%N 7]; [Configure 4%N 0 300 200]; []] = before ++ b :: rest
          /\ has_configure 4%N b = true
          /\ existsb (has_configure 4%N) before = false
          /\ configured (win (run_batches before w_fs)) = 0
          /\ w1 = run_batches (before ++ [b]) w_fs
          /\ create_surface all_ok [[Ping 4%N 7]; [Configure 4%N 0 300 200]; []]
                            (bound argv_fullscreen)
             = create_surface_native all_ok rest w1
          /\ configured (win w1) <> 0.
Proof.
  assert (Hc : compositor (d (bound argv_fullscreen)) <> NULL)
    by (vm_compute; discriminate).
  assert (Hs : shell (d (bound argv_fullscreen)) <> NULL)
    by (vm_compute; discriminate).
  split; [ auto | ]. split; [ vm_compute; reflexivity | ].
  destruct (create_surface_waits_only_when_fullscreen all_ok
              [[Ping 4%N 7]; [Configure 4%N 0 300 200]; []]
              (bound argv_fullscreen) Hc Hs) as (w0 & Ho & _ & H).
  exists w0. split; [ exact Ho | ].
  assert (Hss : shell_surface (win w0) = 4%N).
  { vm_compute in Ho. injection Ho as <-. reflexivity. }
  split; [ exact Hss | ].
  rewrite Hss in H.
  change (fullscreen (win (bound argv_fullscreen)) =? 0) with false in H.
  destruct H as (w_fs & _ & H0 & H).
  change (existsb (has_configure 4%N)
                  [[Ping 4%N 7]; [Configure 4%N 0 300 200]; []])
    with true in H.
  destruct H as (before & b & rest & w1 & E & Hbf & Hb & Hz & Hw1 & Hcs & Hcf & _).
  exists w_fs, before, b, rest, w1. auto 10.
Defined.

Lemma start_time_zero_means_unset_witness :
  startup all_ok argv_windowed [announce] = Returned [] windowed_idle
  /\ start_time windowed_idle = 0
  /\ start_time (redraw_all [(13%N, 0); (14%N, 100); (15%N, 116)] windowed_idle)
     = 100
  /\ angles (requests (redraw 13%N 100 windowed_idle)) = [0; 0].
Proof.
  assert (H : startup all_ok argv_windowed [announce] = Returned [] windowed_idle)
    by (vm_compute; reflexivity).
  split; [ exact H | ].
  destruct (start_time_zero_means_unset all_ok argv_windowed [announce] []
              windowed_idle [(13%N, 0); (14%N, 100); (15%N, 116)] 13%N 100 H)
    as (H1 & _ & H3 & _ & _ & H6).
  split; [ exact H1 | ]. split; [ exact H3 | exact H6 ].
Defined.

(** * Further properties *)

(** ** Footprints *)

Lemma ext_by_trans C (a b c : list request) :
  ext_by C a b -> ext_by C b c -> ext_by C a c.
Proof.
  intros Hab Hbc. induction Hbc as [ | r l' Hr Hbc IH].
  - exact Hab.
  - apply ext_by_cons; assumption.
Qed.

Lemma ext_by_flat_map {X : Type} (f : request -> list X) C
  (l l' : list request) :
  (forall r, C r = true -> f r = []) ->
  ext_by C l l' -> flat_map f l' = flat_map f l.
Proof.
  intros Hf. induction 1 as [ | r l' Hr Hext IH].
  - reflexivity.
  - simpl. rewrite (Hf r Hr), IH. reflexivity.
Qed.

Lemma ext_by_In C (l l' : list request) (r : request) :
  ext_by C l l' -> C r = false -> In r l' -> In r l.
Proof.
  induction 1 as [ | r' l' Hr Hext IH]; intros Hc Hin.
  - exact Hin.
  - destruct Hin as [e | Hin]; [ congruence | exact (IH Hc Hin) ].
Qed.

Lemma ext_by_neutral C (l l' : list request) :
  (forall r, C r = true -> neutral r = true) ->
  ext_by C l l' -> neutral_ext l l'.
Proof.
  intros Hc. induction 1 as [ | r l' Hr Hext IH].
  - apply ext_refl.
  - apply ext_cons; [ apply Hc, Hr | exact IH ].
Qed.

Lemma negotiation_neutral (r : request) :
  negotiation_request r = true -> neutral r = true.
Proof. destruct r; simpl; intro H; try reflexivity; discriminate H. Qed.

Lemma gl_setup_neutral (r : request) :
  gl_setup_request r = true -> neutral r = true.
Proof. destruct r; simpl; intro H; try reflexivity; discriminate H. Qed.

Lemma reply_neutral (r : request) :
  reply_request r = true -> neutral r = true.
Proof. destruct r; simpl; intro H; try reflexivity; discriminate H. Qed.

Ltac conjs := repeat match goal with |- _ /\ _ => split end.

Ltac ext_now :=
  repeat (first [ apply ext_by_refl | apply ext_by_cons; [ reflexivity | ] ]).

Ltac still_now := unfold still; simpl; conjs; try reflexivity; ext_now.

Lemma still_refl (w : world) : still w w.
Proof. still_now. Qed.

Lemma still_trans (a b c : world) : still a b -> still b c -> still a c.
Proof.
  unfold still.
  intros (A1 & A2 & A3 & A4 & A5 & A6 & A7 & A8 & A9 & A10 & A11 & A12)
         (B1 & B2 & B3 & B4 & B5 & B6 & B7 & B8 & B9 & B10 & B11 & B12).
  conjs; try congruence.
  eapply ext_by_trans; eassumption.
Qed.

Lemma still_connected (w : world) : still w (connected w).
Proof. unfold connected. still_now. Qed.

Lemma still_init_egl env alpha (w : world) :
  still w (final (init_egl env alpha w)).
Proof. unfold init_egl. simpl. destruct (egl_ok env); still_now. Qed.

Lemma still_signal_int (w : world) : still w (signal_int w).
Proof. unfold signal_int. still_now. Qed.

Lemma still_create_surface_open (w : world) :
  still w (final (create_surface_open w)).
Proof.
  unfold create_surface_open. simpl.
  destruct (is_null (compositor (d w))); simpl; [ still_now | ].
  destruct (is_null (shell (d w))); still_now.
Qed.

Lemma still_create_surface_native {A} env (a : A) (w : world) :
  still w (final (create_surface_native env a w)).
Proof.
  unfold create_surface_native. simpl.
  destruct (make_current_ok env); still_now.
Qed.

Lemma still_set_toplevel (w : world) :
  still w (emit (WlShellSurfaceSetToplevel (shell_surface (win w))) w).
Proof. still_now. Qed.

Lemma still_set_fullscreen (w : world) :
  still w (emit (WlShellSurfaceSetFullscreen
                   (shell_surface (win (upd_win (set_configured 0) w))))
                (upd_win (set_configured 0) w)).
Proof. still_now. Qed.

(** [init_gl] sends GL set-up requests only, writes the program, the
    position slot and the uniform location, and leaves position slot 1
    behind when it returns. *)
Lemma init_gl_footprint env (w : world) :
  ext_by gl_setup_request (log w) (log (final (init_gl env w)))
  /\ d (final (init_gl env w)) = d w
  /\ start_time (final (init_gl env w)) = start_time w
  /\ fullscreen (win (final (init_gl env w))) = fullscreen (win w)
  /\ gl_col (win (final (init_gl env w))) = gl_col (win w)
  /\ callback (win (final (init_gl env w))) = callback (win w)
  /\ geometry_width (win (final (init_gl env w))) = geometry_width (win w)
  /\ geometry_height (win (final (init_gl env w))) = geometry_height (win w)
  /\ (gl_pos (win (final (init_gl env w))) = gl_pos (win w)
      \/ gl_pos (win (final (init_gl env w))) = 1).
Proof.
  unfold init_gl. simpl.
  destruct (gl_ok env); simpl; conjs; try reflexivity; ext_now; auto.
Qed.

Lemma init_gl_returned env (w w' : world) (u : unit) :
  init_gl env w = Returned u w' ->
  gl_pos (win w') = 1
  /\ gl_col (win w') = gl_col (win w)
  /\ viewports (log w')
     = (geometry_width (win w), geometry_height (win w)) :: viewports (log w)
  /\ native_windows (log w') = native_windows (log w).
Proof.
  unfold init_gl. simpl. destruct (gl_ok env); simpl; intro H;
    [ | discriminate H ].
  injection H as _ <-. simpl. conjs; reflexivity.
Qed.

(** What no handler writes. *)
Lemma dispatch_fields (ev : event) (w : world) :
  fullscreen (win (dispatch ev w)) = fullscreen (win w)
  /\ gl_pos (win (dispatch ev w)) = gl_pos (win w)
  /\ gl_col (win (dispatch ev w)) = gl_col (win w)
  /\ surface (win (dispatch ev w)) = surface (win w)
  /\ running (dispatch ev w) = running w.
Proof.
  destruct ev; simpl;
    unfold display_handle_global, event_mask_update, handle_ping,
      handle_configure, handle_popup_done, input_handle_pointer_enter, redraw;
    split_ifs; simpl; conjs; reflexivity.
Qed.

Lemma redraw_fields (cb : ptr) (time : Z) (w : world) :
  d (redraw cb time w) = d w
  /\ win (redraw cb time w) = set_callback (N.succ (next w)) (win w)
  /\ running (redraw cb time w) = running w.
Proof.
  unfold redraw. destruct (start_time w =? 0), (is_null cb); conjs; reflexivity.
Qed.

(** The handlers other than [redraw] send reply requests only. *)
Lemma dispatch_reply (ev : event) (w : world) :
  match ev with Done cb _ => is_live_callback cb w = false | _ => True end ->
  ext_by reply_request (log w) (log (dispatch ev w)).
Proof.
  destruct ev; simpl; intro H;
    unfold display_handle_global, event_mask_update, handle_ping,
      handle_configure, handle_popup_done, input_handle_pointer_enter;
    try rewrite H; split_ifs; simpl; ext_now.
Qed.

(** ** A rule for properties of whole runs

    [P] holds at the end of every run of [main] if it holds at the
    first line and every part of the program keeps it. *)

Lemma startup_unfold env argv (script : list batch) :
  startup env argv script
  = if negb (connect_ok env) then Fatal (main_init argv)
    else match script with
         | [] => Blocked (connected (main_init argv))
         | b :: script' =>
             let w := wl_display_iterate b (connected (main_init argv)) in
             bind (init_egl env (if fullscreen (win w) =? 0 then 1 else 0) w)
               (fun _ w =>
                  bind (create_surface env script' w)
                    (fun rest w =>
                       bind (init_gl env w)
                         (fun _ w => Returned rest (redraw NULL 0 w))))
         end.
Proof. reflexivity. Qed.

Section RunRule.
Variable E : event -> Prop.
Variable P : world -> Prop.

Hypothesis P_still : forall w w', still w w' -> P w -> P w'.
Hypothesis P_dispatch : forall ev w, E ev -> P w -> P (dispatch ev w).
Hypothesis P_init_gl : forall env w, P w -> P (final (init_gl env w)).
Hypothesis P_first :
  forall env w u w',
    init_gl env w = Returned u w' -> P w' -> P (redraw NULL 0 w').
Hypothesis P_teardown : forall w, P w -> P (teardown w).

Lemma create_surface_run env (script : list batch) (w : world) :
  sent E script -> P w -> holds P (sent E) (create_surface env script w).
Proof.
  intros Hs Hw. unfold create_surface.
  apply (bind_holds P (fun _ => True)).
  - split; [ | destruct (create_surface_open w); exact I ].
    apply (P_still w); [ apply still_create_surface_open | exact Hw ].
  - intros _ w1 _ Hw1. destruct (fullscreen (win w1) =? 0).
    + split.
      * eapply P_still; [ apply still_create_surface_native | ].
        eapply P_still; [ apply still_set_toplevel | exact Hw1 ].
      * unfold create_surface_native. simpl.
        destruct (make_current_ok env); simpl; auto.
    + apply (bind_holds P (sent E)).
      * apply (wait_configured_rule E P P_dispatch); [ exact Hs | ].
        eapply P_still; [ apply still_set_fullscreen | exact Hw1 ].
      * intros rest w2 Hrest Hw2. split.
        -- eapply P_still; [ apply still_create_surface_native | exact Hw2 ].
        -- unfold create_surface_native. simpl.
           destruct (make_current_ok env); simpl; auto.
Qed.

Lemma startup_run env argv (script : list batch) :
  sent E script -> P (main_init argv) ->
  holds P (sent E) (startup env argv script).
Proof.
  intros Hs Hw. rewrite startup_unfold.
  destruct (connect_ok env); simpl; [ | split; [ exact Hw | exact I ] ].
  assert (Hc : P (connected (main_init argv)))
    by (eapply P_still; [ apply still_connected | exact Hw ]).
  destruct script as [ | b script]; [ split; [ exact Hc | exact I ] | ].
  inversion Hs as [ | ? ? Hb Hs']; subst.
  set (w1 := wl_display_iterate b (connected (main_init argv))).
  assert (H1 : P w1) by (apply (iterate_rule E P P_dispatch); assumption).
  apply (bind_holds P (fun _ => True)).
  - split; [ | destruct (init_egl env _ w1); exact I ].
    eapply P_still; [ apply still_init_egl | exact H1 ].
  - intros _ w2 _ H2. apply (bind_holds P (sent E)).
    + apply create_surface_run; assumption.
    + intros rest w3 Hrest H3. pose proof (P_init_gl env w3 H3) as Hg.
      destruct (init_gl env w3) as [u w4 | w4 | w4] eqn:Hi;
        unfold holds, bind, final in *.
      * split; [ apply (P_first env w3 u w4 Hi Hg) | exact Hrest ].
      * split; [ exact Hg | exact I ].
      * split; [ exact Hg | exact I ].
Qed.

Lemma main_loop_run (script : list batch) :
  forall w, sent E script -> P w -> P (main_loop script w).
Proof.
  induction script as [ | b rest IH]; intros w Hs Hw; simpl.
  - destruct (running w =? 0); [ exact Hw | ].
    eapply P_still; [ apply still_signal_int | exact Hw ].
  - destruct (running w =? 0); [ exact Hw | ].
    inversion Hs; subst. apply IH; [ assumption | ].
    apply (iterate_rule E P P_dispatch); assumption.
Qed.

Lemma main_run env argv (script : list batch) :
  sent E script -> P (main_init argv) -> P (final (main env argv script)).
Proof.
  intros Hs Hw. destruct (startup_run env argv script Hs Hw) as [H1 H2].
  unfold main. destruct (startup env argv script) as [rest w | w | w];
    simpl in *; try exact H1.
  apply P_teardown, main_loop_run; assumption.
Qed.
End RunRule.

Lemma sent_scripted (script : list batch) : sent (scripted script) script.
Proof.
  unfold sent. apply Forall_forall. intros b Hb.
  apply Forall_forall. intros ev Hev. exists b. auto.
Qed.

(** ** What each part of the program sends *)

Lemma ext_by_weaken (C C' : request -> bool) (l l' : list request) :
  (forall r, C r = true -> C' r = true) -> ext_by C l l' -> ext_by C' l l'.
Proof.
  intros Hc. induction 1 as [ | r l' Hr Hext IH].
  - apply ext_by_refl.
  - apply ext_by_cons; [ apply Hc, Hr | exact IH ].
Qed.

Lemma redraw_ext (cb : ptr) (time : Z) (w : world) :
  ext_by render_request (log w) (log (redraw cb time w)).
Proof. rewrite redraw_log. destruct (is_null cb); simpl; ext_now. Qed.

Lemma teardown_ext (w : world) :
  ext_by teardown_request (log w) (log (teardown w)).
Proof.
  rewrite teardown_log, destroy_surface_log.
  destruct (is_null (compositor (d w))), (is_null (shell (d w))),
    (is_null (callback (win w))); simpl; ext_now.
Qed.

Lemma dispatch_ext (ev : event) (w : world) :
  ext_by handler_request (log w) (log (dispatch ev w)).
Proof.
  assert (Hr : match ev with
               | Done cb _ => is_live_callback cb w = false
               | _ => True
               end -> ext_by handler_request (log w) (log (dispatch ev w))).
  { intro H. apply (ext_by_weaken reply_request); [ | apply dispatch_reply, H ].
    intros r Hrep. unfold handler_request. rewrite Hrep. reflexivity. }
  destruct ev; try (apply Hr; exact I).
  destruct (is_live_callback cb w) eqn:Hl; [ | apply Hr; reflexivity ].
  simpl. rewrite Hl. apply (ext_by_weaken render_request); [ | apply redraw_ext ].
  intros r Hren. unfold handler_request. rewrite Hren. apply orb_true_r.
Qed.

Lemma init_gl_ext env (w : world) :
  ext_by gl_setup_request (log w) (log (final (init_gl env w))).
Proof. apply init_gl_footprint. Qed.

Lemma still_ext (w w' : world) :
  still w w' -> ext_by negotiation_request (log w) (log w').
Proof. unfold still. tauto. Qed.

(** A request outside the class of a part of the program was sent
    before that part ran. *)
Lemma sent_before C (l l' : list request) (r : request) :
  C r = false -> ext_by C l l' -> In r l' -> In r l.
Proof. intros Hc He. exact (ext_by_In C l l' r He Hc). Qed.

Lemma flat_map_rev_length {X : Type} (f : request -> list X)
  (l : list request) :
  List.length (flat_map f (rev l)) = List.length (flat_map f l).
Proof.
  induction l as [ | r l IH]; simpl; [ reflexivity | ].
  rewrite flat_map_app, !length_app, IH. simpl. rewrite app_nil_r. lia.
Qed.

Lemma flat_map_rev_In {X : Type} (f : request -> list X)
  (l : list request) (x : X) :
  In x (flat_map f (rev l)) <-> In x (flat_map f l).
Proof.
  rewrite !in_flat_map. split; intros (r & Hr & Hx); exists r;
    (split; [ | exact Hx ]).
  - apply in_rev, Hr.
  - apply in_rev. rewrite rev_involutive. exact Hr.
Qed.

(** ** The angle of every frame *)

Lemma angle_deg_range (time start : Z) : 0 <= angle_deg time start < 360.
Proof. unfold angle_deg. apply Z.mod_pos_bound. reflexivity. Qed.

Lemma redraw_angles_log (cb : ptr) (time : Z) (w : world) :
  angles (log (redraw cb time w))
  = angle_deg time (captured time w) :: angles (log w).
Proof. rewrite redraw_log. destruct (is_null cb); reflexivity. Qed.

Lemma teardown_angles (w : world) :
  angles (log (teardown w)) = angles (log w).
Proof.
  rewrite teardown_log, destroy_surface_log.
  destruct (is_null (compositor (d w))), (is_null (shell (d w))),
    (is_null (callback (win w))); reflexivity.
Qed.

Lemma dispatch_angles_in_range (ev : event) (w : world) :
  Forall (fun a => 0 <= a < 360) (angles (log w)) ->
  Forall (fun a => 0 <= a < 360) (angles (log (dispatch ev w))).
Proof.
  intro H.
  assert (Hc : match ev with
               | Done cb _ => is_live_callback cb w = false
               | _ => True
               end ->
               Forall (fun a => 0 <= a < 360) (angles (log (dispatch ev w)))).
  { intro Hq. destruct (dispatch_calm ev w Hq) as (_ & _ & He).
    rewrite (neutral_ext_angles _ _ He). exact H. }
  destruct ev; try (apply Hc; exact I).
  destruct (is_live_callback cb w) eqn:Hl; [ | apply Hc; reflexivity ].
  simpl. rewrite Hl, redraw_angles_log.
  constructor; [ apply angle_deg_range | exact H ].
Qed.

(** In every run, whatever timestamps the server sends, every rotation
    angle uploaded lies in [0, 360). *)
Theorem every_angle_in_range env argv (script : list batch) :
  Forall (fun a => 0 <= a < 360)
         (angles (requests (final (main env argv script)))).
Proof.
  unfold requests. rewrite angles_rev. apply Forall_rev.
  apply (main_run (fun _ => True)
           (fun w => Forall (fun a => 0 <= a < 360) (angles (log w)))).
  - intros w w' Hs H.
    rewrite (neutral_ext_angles (log w) (log w')); [ exact H | ].
    apply (ext_by_neutral negotiation_request);
      [ exact negotiation_neutral | apply still_ext, Hs ].
  - intros ev w _. apply dispatch_angles_in_range.
  - intros env0 w H. destruct (quiet_init_gl env0 w) as ((_ & _ & He) & _).
    rewrite (neutral_ext_angles _ _ He). exact H.
  - intros env0 w u w' _ H. rewrite redraw_angles_log.
    constructor; [ apply angle_deg_range | exact H ].
  - intros w H. rewrite teardown_angles. exact H.
  - apply sent_True.
  - unfold main_init. split_ifs; constructor.
Qed.

(** ** Rendering, presenting and re-arming go together *)

Lemma redraw_counts (cb : ptr) (time : Z) (w : world) :
  swaps (log (redraw cb time w))
  = egl_surface (win w) :: swaps (log w)
  /\ frame_requests (log (redraw cb time w))
     = N.succ (next w) :: frame_requests (log w)
  /\ draws (log (redraw cb time w))
     = (gl_pos (win w), gl_col (win w)) :: draws (log w).
Proof. rewrite redraw_log. destruct (is_null cb); conjs; reflexivity. Qed.

Lemma angles_flat_map (l : list request) :
  angles l = flat_map (fun r => match r with
                                | GlUniformMatrix4fv _ a => [a]
                                | _ => []
                                end) l.
Proof.
  induction l as [ | r l IH]; simpl; [ reflexivity | ].
  rewrite IH. destruct r; reflexivity.
Qed.

Lemma balanced_ext C (w w' : world) :
  (forall r, C r = true -> counted r = false) ->
  ext_by C (log w) (log w') -> balanced w -> balanced w'.
Proof.
  intros Hc He [H1 H2]. unfold balanced, swaps, frame_requests.
  rewrite !angles_flat_map.
  rewrite !(ext_by_flat_map _ C (log w) (log w')); try assumption;
    [ rewrite <- angles_flat_map; split; assumption | | | ];
    intros r Hr; specialize (Hc r Hr); destruct r; try reflexivity;
    discriminate Hc.
Qed.

Lemma balanced_redraw (cb : ptr) (time : Z) (w : world) :
  balanced w -> balanced (redraw cb time w).
Proof.
  intros [H1 H2]. unfold balanced.
  destruct (redraw_counts cb time w) as (Hs & Hf & _).
  rewrite Hs, Hf, redraw_angles_log. simpl. split; congruence.
Qed.

Lemma main_balanced env argv (script : list batch) :
  balanced (final (main env argv script)).
Proof.
  apply (main_run (fun _ => True) balanced).
  - intros w w' Hs. apply (balanced_ext negotiation_request);
      [ | apply still_ext, Hs ].
    intros r Hr. destruct r; try reflexivity; discriminate Hr.
  - intros ev w _ Hw.
    destruct ev; try (apply (balanced_ext reply_request w);
                      [ | apply dispatch_reply; exact I | exact Hw ];
                      intros r Hr; destruct r; try reflexivity;
                      discriminate Hr).
    simpl. destruct (is_live_callback cb w);
      [ apply balanced_redraw, Hw | exact Hw ].
  - intros env0 w. apply (balanced_ext gl_setup_request);
      [ | apply init_gl_ext ].
    intros r Hr. destruct r; try reflexivity; discriminate Hr.
  - intros env0 w u w' _. apply balanced_redraw.
  - intros w. apply (balanced_ext teardown_request);
      [ | apply teardown_ext ].
    intros r Hr. destruct r; try reflexivity; discriminate Hr.
  - apply sent_True.
  - unfold main_init, balanced. split_ifs; split; reflexivity.
Qed.

(** In every run the numbers of rotation uploads, of buffer swaps and
    of frame requests are the same: nothing is presented that was not
    drawn, and every frame presented re-arms the scheduler once. *)
Theorem frames_drawn_presented_and_requested_agree env argv
  (script : list batch) :
  List.length (swaps (requests (final (main env argv script))))
  = List.length (angles (requests (final (main env argv script))))
  /\ List.length (frame_requests (requests (final (main env argv script))))
     = List.length (angles (requests (final (main env argv script)))).
Proof.
  destruct (main_balanced env argv script) as [H1 H2].
  unfold requests, swaps, frame_requests.
  rewrite angles_flat_map, !flat_map_rev_length, <- angles_flat_map.
  split; assumption.
Qed.

(** ** Replies answer events *)

Lemma reply_not_other (r : request) :
  reply_request r = true ->
  negotiation_request r = false /\ gl_setup_request r = false
  /\ render_request r = false /\ teardown_request r = false.
Proof. destruct r; simpl; intro H; try discriminate H; conjs; reflexivity. Qed.

Lemma teardown_fields (w : world) :
  win (teardown w) = win w /\ start_time (teardown w) = start_time w.
Proof.
  split; [ apply teardown_win | ].
  unfold teardown. generalize (destroy_surface_log w).
  assert (Hd : start_time (destroy_surface w) = start_time w).
  { unfold destroy_surface. simpl.
    destruct (is_null (callback (win w))); reflexivity. }
  rewrite <- Hd. generalize (destroy_surface w). intros u _. unfold fini_egl.
  destruct (is_null (shell (d (emit EglReleaseThread
                                 (emit EglTerminate
                                    (emit (EglMakeCurrent NULL NULL) u))))));
    match goal with
    | |- context [is_null (compositor (d ?x))] =>
        destruct (is_null (compositor (d x)))
    end; reflexivity.
Qed.

Ltac in_cases H :=
  repeat match type of H with
         | In _ (_ :: _) => destruct H as [H | H]; [ try discriminate H | ]
         | _ = _ \/ _ => destruct H as [H | H]; [ try discriminate H | ]
         | In _ [] => contradiction H
         | False => contradiction H
         end.

(** A reply request [r0] found in the log of a run was caused by an
    event of the script, if every single dispatch that adds it was. *)
Section Origin.
Variable script : list batch.
Variable mode : Z.
Variable r0 : request.
Variable cause : Prop.

Hypothesis r0_reply : reply_request r0 = true.
Hypothesis r0_dispatch :
  forall ev w,
    scripted script ev -> fullscreen (win w) = mode ->
    In r0 (log (dispatch ev w)) -> In r0 (log w) \/ cause.

Lemma origin_in_run env argv :
  fullscreen (win (main_init argv)) = mode ->
  In r0 (requests (final (main env argv script))) -> cause.
Proof.
  intros Hm Hin. unfold requests in Hin. apply in_rev in Hin.
  destruct (reply_not_other r0 r0_reply) as (N1 & N2 & N3 & N4).
  assert (H : fullscreen (win (final (main env argv script))) = mode
              /\ (In r0 (log (final (main env argv script))) -> cause)).
  { apply (main_run (scripted script)
             (fun w => fullscreen (win w) = mode /\ (In r0 (log w) -> cause))).
    - intros w w' Hs [Hf Hc]. split.
      + destruct Hs as (_ & _ & _ & _ & _ & _ & _ & Hfs & _). congruence.
      + intro Hi. apply Hc.
        exact (sent_before _ _ _ r0 N1 (still_ext w w' Hs) Hi).
    - intros ev w He [Hf Hc]. split.
      + destruct (dispatch_fields ev w) as (Hfs & _). congruence.
      + intro Hi. destruct (r0_dispatch ev w He Hf Hi); auto.
    - intros env0 w [Hf Hc]. split.
      + destruct (init_gl_footprint env0 w) as (_ & _ & _ & Hfs & _).
        congruence.
      + intro Hi. apply Hc.
        exact (sent_before _ _ _ r0 N2 (init_gl_ext env0 w) Hi).
    - intros env0 w u w' _ [Hf Hc]. split.
      + destruct (redraw_fields NULL 0 w') as (_ & Hw & _). rewrite Hw.
        exact Hf.
      + intro Hi. apply Hc.
        exact (sent_before _ _ _ r0 N3 (redraw_ext NULL 0 w') Hi).
    - intros w [Hf Hc]. split.
      + destruct (teardown_fields w) as (Hw & _). rewrite Hw. exact Hf.
      + intro Hi. apply Hc.
        exact (sent_before _ _ _ r0 N4 (teardown_ext w) Hi).
    - apply sent_scripted.
    - split; [ exact Hm | ].
      unfold main_init. split_ifs; simpl; intro Hi; contradiction Hi. }
  apply H, Hin.
Qed.
End Origin.

(** A dispatch that adds a request other than a rendering one is not
    that of a frame callback. *)
Lemma done_adds_rendering (cb : ptr) (time : Z) (w : world) (r : request) :
  render_request r = false ->
  In r (log (dispatch (Done cb time) w)) -> In r (log w).
Proof.
  intros Hr. simpl. destruct (is_live_callback cb w); [ | auto ].
  exact (sent_before _ _ _ r Hr (redraw_ext cb time w)).
Qed.

Lemma pong_origin (ev : event) (w : world) (ss : ptr) (serial : Z) :
  In (WlShellSurfacePong ss serial) (log (dispatch ev w)) ->
  In (WlShellSurfacePong ss serial) (log w) \/ ev = Ping ss serial.
Proof.
  destruct ev as [id i v | m | ss0 s0 | ss0 e wd ht | ss0 | cb t | dev s0 | dev];
    try (intro H; left; revert H; apply done_adds_rendering; reflexivity);
    simpl;
    unfold display_handle_global, event_mask_update, handle_ping,
      handle_configure, handle_popup_done, input_handle_pointer_enter;
    split_ifs; simpl; intro H; in_cases H; auto.
  injection H as -> ->. right. reflexivity.
Qed.


Lemma bind_origin (ev : event) (w : world) (id : Z) (i : string) (h : ptr) :
  In (WlDisplayBind id i h) (log (dispatch ev w)) ->
  In (WlDisplayBind id i h) (log w)
  \/ ((exists version, ev = Global id i version)
      /\ (i = "wl_compositor"%string \/ i = "wl_shell"%string
          \/ i = "wl_input_device"%string)).
Proof.
  destruct ev as [id0 i0 v | m | ss0 s0 | ss0 e wd ht | ss0 | cb t | dev0 s0 | dev0];
    try (intro H; left; revert H; apply done_adds_rendering; reflexivity);
    simpl;
    unfold event_mask_update, handle_ping,
      handle_configure, handle_popup_done, input_handle_pointer_enter;
    try (split_ifs; simpl; intro H; in_cases H; auto; fail).
  unfold display_handle_global. rewrite !strcmp_eqb.
  destruct (String.eqb_spec i0 "wl_compositor") as [-> | n1];
    [ simpl; intro H; in_cases H; auto;
      injection H as -> <- _; right; split; [ exists v | ]; auto | ].
  destruct (String.eqb_spec i0 "wl_shell") as [-> | n2];
    [ simpl; intro H; in_cases H; auto;
      injection H as -> <- _; right; split; [ exists v | ]; auto | ].
  destruct (String.eqb_spec i0 "wl_input_device") as [-> | n3];
    [ simpl; intro H; in_cases H; auto;
      injection H as -> <- _; right; split; [ exists v | ]; auto | ].
  auto.
Qed.

(** In every run a pong is sent only in answer to a ping of the
    script, on the shell surface that was pinged and with its
    serial. *)
Theorem every_pong_answers_a_ping env argv (script : list batch)
  (ss : ptr) (serial : Z) :
  In (WlShellSurfacePong ss serial) (requests (final (main env argv script))) ->
  exists b, In b script /\ In (Ping ss serial) b.
Proof.
  apply (origin_in_run script (fullscreen (win (main_init argv)))
           (WlShellSurfacePong ss serial) (scripted script (Ping ss serial)));
    [ reflexivity | | reflexivity ].
  intros ev w He _ Hi. destruct (pong_origin ev w ss serial Hi) as [H | ->];
    [ left; exact H | right; exact He ].
Qed.

(** In every run a global is bound only in answer to its announcement
    in the script, and only for the three interfaces the program
    knows. *)
Theorem every_bind_answers_a_global env argv (script : list batch)
  (id : Z) (interface : string) (proxy : ptr) :
  In (WlDisplayBind id interface proxy)
     (requests (final (main env argv script))) ->
  (exists b version, In b script /\ In (Global id interface version) b)
  /\ (interface = "wl_compositor"%string \/ interface = "wl_shell"%string
      \/ interface = "wl_input_device"%string).
Proof.
  apply (origin_in_run script (fullscreen (win (main_init argv)))
           (WlDisplayBind id interface proxy));
    [ reflexivity | | reflexivity ].
  intros ev w He _ Hi.
  destruct (bind_origin ev w id interface proxy Hi) as [H | [[v ->] Hk]];
    [ left; exact H | right ].
  split; [ | exact Hk ]. destruct He as (b & Hb & Hev). exists b, v. auto.
Qed.


(** ** The attribute slots of every draw *)

(** A frame callback that is alive was requested. *)
Lemma live_was_requested (l : list request) (cb : ptr) :
  In cb (live_callbacks l) -> In cb (frame_requests l).
Proof.
  induction l as [ | r l IH]; simpl; [ auto | ].
  destruct r; simpl; auto.
  - intros [e | H]; [ left; exact e | right; exact (IH H) ].
  - intro H. apply in_remove in H. apply IH, H.
Qed.

Lemma slots_apart_ext C (w w' : world) :
  (forall r, C r = true -> counted r = false) ->
  (forall r, C r = true -> draws [r] = []) ->
  ext_by C (log w) (log w') ->
  gl_col (win w') = gl_col (win w) ->
  gl_pos (win w') = gl_pos (win w) \/ gl_pos (win w') = 1 ->
  slots_apart w -> slots_apart w'.
Proof.
  intros Hc Hd He Hcol Hpos (H1 & H2 & H3). unfold slots_apart, draws, frame_requests.
  rewrite !(ext_by_flat_map _ C (log w) (log w')); try assumption.
  - split; [ congruence | ]. split; [ exact H2 | ].
    destruct H3 as [H3 | H3]; [ left; exact H3 | right ].
    destruct Hpos; congruence.
  - intros r Hr. specialize (Hc r Hr). destruct r; try reflexivity;
      discriminate Hc.
  - intros r Hr. specialize (Hd r Hr). unfold draws in Hd. simpl in Hd.
    rewrite app_nil_r in Hd. exact Hd.
Qed.

Lemma slots_apart_redraw (cb : ptr) (time : Z) (w : world) :
  gl_pos (win w) = 1 -> slots_apart w -> slots_apart (redraw cb time w).
Proof.
  intros Hp (H1 & H2 & H3). unfold slots_apart.
  destruct (redraw_counts cb time w) as (_ & _ & Hd).
  destruct (redraw_fields cb time w) as (_ & Hw & _).
  rewrite Hd, Hw. simpl. split; [ exact H1 | ].
  split; [ | right; exact Hp ].
  constructor; [ rewrite Hp, H1; reflexivity | exact H2 ].
Qed.

Lemma slots_apart_dispatch (ev : event) (w : world) :
  slots_apart w -> slots_apart (dispatch ev w).
Proof.
  intro H. destruct (dispatch_fields ev w) as (_ & Hp & Hc & _).
  assert (Hq : match ev with
               | Done cb _ => is_live_callback cb w = false
               | _ => True
               end -> slots_apart (dispatch ev w)).
  { intro Hn. apply (slots_apart_ext reply_request w); auto.
    - intros r Hr. destruct r; try reflexivity; discriminate Hr.
    - intros r Hr. destruct r; try reflexivity; discriminate Hr.
    - apply dispatch_reply, Hn. }
  destruct ev; try (apply Hq; exact I).
  destruct (is_live_callback cb w) eqn:Hl; [ | apply Hq; reflexivity ].
  simpl. rewrite Hl. apply slots_apart_redraw; [ | exact H ].
  destruct H as (_ & _ & [Hf | Hp1]); [ | exact Hp1 ].
  unfold is_live_callback in Hl. apply existsb_exists in Hl.
  destruct Hl as (x & Hx & _). apply live_was_requested in Hx.
  rewrite Hf in Hx. contradiction Hx.
Qed.

(** In every run every draw uses attribute slot 1 for the position and
    slot 0 for the colour: the two never share a slot. *)
Theorem position_and_colour_slots_differ env argv (script : list batch) :
  Forall (fun pc => pc = (1, 0))
         (draws (requests (final (main env argv script)))).
Proof.
  assert (H : slots_apart (final (main env argv script))).
  { apply (main_run (fun _ => True) slots_apart).
    - intros w w' Hs. pose proof Hs as Hs'.
      destruct Hs' as (_ & _ & _ & _ & _ & _ & _ & _ & _ & Hp & Hc & He).
      apply (slots_apart_ext negotiation_request w); auto;
        intros r Hr; destruct r; try reflexivity; discriminate Hr.
    - intros ev w _. apply slots_apart_dispatch.
    - intros env0 w.
      destruct (init_gl_footprint env0 w)
        as (He & _ & _ & _ & Hc & _ & _ & _ & Hp).
      apply (slots_apart_ext gl_setup_request w); auto;
        intros r Hr; destruct r; try reflexivity; discriminate Hr.
    - intros env0 w u w' Hi. apply slots_apart_redraw.
      apply (init_gl_returned env0 w w' u Hi).
    - intros w. destruct (teardown_fields w) as (Hw & _).
      apply (slots_apart_ext teardown_request w);
        [ | | apply teardown_ext | rewrite Hw; reflexivity
          | left; rewrite Hw; reflexivity ];
        intros r Hr; destruct r; try reflexivity; discriminate Hr.
    - apply sent_True.
    - unfold main_init, slots_apart. split_ifs; simpl; auto. }
  destruct H as (_ & H & _). apply Forall_forall. intros pc Hpc.
  unfold requests, draws in Hpc.
  apply (proj1 (flat_map_rev_In _ _ _)) in Hpc.
  revert pc Hpc. apply Forall_forall. exact H.
Qed.

(** ** The readiness mask *)

Lemma dispatch_mask (ev : event) (w : world) :
  mask (d (dispatch ev w))
  = match ev with MaskUpdate m => m | _ => mask (d w) end.
Proof.
  destruct ev; simpl;
    unfold display_handle_global, event_mask_update, handle_ping,
      handle_configure, handle_popup_done, input_handle_pointer_enter, redraw;
    split_ifs; reflexivity.
Qed.

(** After a batch of events the stored mask is the one of the last
    mask update in the batch, and the mask from before when there is
    none: no other handler writes it. *)
Theorem mask_is_last_update (b : batch) (w : world) :
  mask (d (wl_display_iterate b w)) = last_mask b (mask (d w)).
Proof.
  unfold wl_display_iterate, last_mask. revert w.
  induction b as [ | ev b IH]; intro w; simpl; [ reflexivity | ].
  rewrite IH, dispatch_mask. reflexivity.
Qed.

(** ** The start time in the event loop *)

Lemma dispatch_keeps_start (ev : event) (w : world) :
  start_time w <> 0 -> start_time (dispatch ev w) = start_time w.
Proof.
  intro Hs.
  assert (Hc : match ev with
               | Done cb _ => is_live_callback cb w = false
               | _ => True
               end -> start_time (dispatch ev w) = start_time w).
  { intro Hq. apply (dispatch_calm ev w Hq). }
  destruct ev; try (apply Hc; exact I).
  destruct (is_live_callback cb w) eqn:Hl; [ | apply Hc; reflexivity ].
  simpl. rewrite Hl, redraw_start_time. unfold captured.
  destruct (Z.eqb_spec (start_time w) 0); [ contradiction | reflexivity ].
Qed.

Lemma iterate_keeps_start (b : batch) :
  forall w, start_time w <> 0 ->
            start_time (wl_display_iterate b w) = start_time w.
Proof.
  unfold wl_display_iterate.
  induction b as [ | ev b IH]; intros w Hs; simpl; [ reflexivity | ].
  rewrite IH; rewrite dispatch_keeps_start; auto.
Qed.

(** Once the start time is captured, nothing the server sends changes
    it: it is the same when the event loop ends and after the
    teardown. *)
Theorem captured_start_time_is_kept (script : list batch) (w : world) :
  start_time w <> 0 ->
  start_time (main_loop script w) = start_time w
  /\ start_time (teardown (main_loop script w)) = start_time w.
Proof.
  intro Hs.
  assert (H : start_time (main_loop script w) = start_time w).
  { revert w Hs. induction script as [ | b rest IH]; intros w Hs; simpl.
    - destruct (running w =? 0); reflexivity.
    - destruct (running w =? 0); [ reflexivity | ].
      rewrite IH; rewrite iterate_keeps_start; auto. }
  split; [ exact H | ].
  destruct (teardown_fields (main_loop script w)) as (_ & Ht).
  rewrite Ht. exact H.
Qed.

(** ** One frame per call of [redraw] *)

Lemma frames_from_app (l1 l2 : list request) :
  forall vp a,
    frames_from vp a (l1 ++ l2)
    = frames_from vp a l1
      ++ frames_from (viewport_after vp l1) (angle_after a l1) l2.
Proof.
  induction l1 as [ | r l1 IH]; intros vp a; simpl; [ reflexivity | ].
  destruct r; simpl; rewrite IH; reflexivity.
Qed.

Lemma viewport_after_app (l1 l2 : list request) :
  forall vp, viewport_after vp (l1 ++ l2)
             = viewport_after (viewport_after vp l1) l2.
Proof.
  induction l1 as [ | r l1 IH]; intro vp; simpl; [ reflexivity | ].
  destruct r; simpl; apply IH.
Qed.

(** Every call of [redraw] presents exactly one frame, at the angle it
    computed and at the viewport that was in force before the call, and
    leaves that viewport in force: the geometry stored in the window is
    not consulted. *)
Theorem redraw_presents_one_frame (cb : ptr) (time : Z) (w : world) :
  frames (redraw cb time w)
  = frames w
    ++ [(fst (viewport_after (0, 0) (requests w)),
         snd (viewport_after (0, 0) (requests w)),
         angle_deg time (captured time w))]
  /\ viewport_after (0, 0) (requests (redraw cb time w))
     = viewport_after (0, 0) (requests w).
Proof.
  unfold frames. rewrite redraw_requests, frames_from_app, viewport_after_app.
  destruct (is_null cb); split; reflexivity.
Qed.

(** ** The globals the program depends on *)

Lemma dispatch_compositor (ev : event) (w : world) :
  compositor (d (dispatch ev w))
  = match ev with
    | Global _ i _ =>
        if String.eqb i "wl_compositor" then N.succ (next w)
        else compositor (d w)
    | _ => compositor (d w)
    end.
Proof.
  destruct ev as [id i v | | | | | | | ];
    [ | simpl;
        unfold event_mask_update, handle_ping, handle_configure,
          handle_popup_done, input_handle_pointer_enter, redraw;
        split_ifs; reflexivity .. ].
  simpl. unfold display_handle_global. rewrite !strcmp_eqb.
  destruct (String.eqb i "wl_compositor"); [ reflexivity | ].
  destruct (String.eqb i "wl_shell"); [ reflexivity | ].
  destruct (String.eqb i "wl_input_device"); reflexivity.
Qed.

Lemma dispatch_shell (ev : event) (w : world) :
  shell (d (dispatch ev w))
  = match ev with
    | Global _ i _ =>
        if String.eqb i "wl_shell" then N.succ (next w) else shell (d w)
    | _ => shell (d w)
    end.
Proof.
  destruct ev as [id i v | | | | | | | ];
    [ | simpl;
        unfold event_mask_update, handle_ping, handle_configure,
          handle_popup_done, input_handle_pointer_enter, redraw;
        split_ifs; reflexivity .. ].
  simpl. unfold display_handle_global. rewrite !strcmp_eqb.
  destruct (String.eqb_spec i "wl_compositor") as [-> | n1];
    [ reflexivity | ].
  destruct (String.eqb i "wl_shell"); [ reflexivity | ].
  destruct (String.eqb i "wl_input_device"); reflexivity.
Qed.

(** A capability that a batch leaves alone, sets or keeps set,
    according to the globals the batch announces. *)
Section Capability.
Variable cap : display -> ptr.
Variable name : string.

Hypothesis cap_dispatch :
  forall ev w,
    cap (d (dispatch ev w))
    = match ev with
      | Global _ i _ =>
          if String.eqb i name then N.succ (next w) else cap (d w)
      | _ => cap (d w)
      end.

Lemma iterate_unannounced (b : batch) :
  forall w, has_global name b = false ->
            cap (d (wl_display_iterate b w)) = cap (d w).
Proof.
  unfold wl_display_iterate, has_global.
  induction b as [ | ev b IH]; intros w Hb; simpl in *; [ reflexivity | ].
  apply orb_false_iff in Hb. destruct Hb as [He Hb].
  rewrite (IH _ Hb), cap_dispatch. destruct ev; try reflexivity.
  rewrite He. reflexivity.
Qed.

Lemma iterate_keeps_bound (b : batch) :
  forall w, cap (d w) <> NULL -> cap (d (wl_display_iterate b w)) <> NULL.
Proof.
  unfold wl_display_iterate.
  induction b as [ | ev b IH]; intros w Hw; simpl; [ exact Hw | ].
  apply IH. rewrite cap_dispatch. destruct ev; try exact Hw.
  destruct (String.eqb interface name); [ apply N.neq_succ_0 | exact Hw ].
Qed.

Lemma iterate_announced (b : batch) :
  forall w, has_global name b = true ->
            cap (d (wl_display_iterate b w)) <> NULL.
Proof.
  induction b as [ | ev b IH]; intros w Hb; [ discriminate Hb | ].
  change (wl_display_iterate (ev :: b) w)
    with (wl_display_iterate b (dispatch ev w)).
  unfold has_global in Hb. simpl in Hb. apply orb_true_iff in Hb.
  destruct Hb as [He | Hb]; [ | apply IH, Hb ].
  apply iterate_keeps_bound. rewrite cap_dispatch.
  destruct ev; try discriminate He. rewrite He. apply N.neq_succ_0.
Qed.
End Capability.

Lemma iterate_ext (b : batch) :
  forall w, ext_by handler_request (log w) (log (wl_display_iterate b w)).
Proof.
  unfold wl_display_iterate.
  induction b as [ | ev b IH]; intro w; simpl; [ apply ext_by_refl | ].
  eapply ext_by_trans; [ apply dispatch_ext | apply IH ].
Qed.

Lemma iterate_surface_fields (b : batch) :
  forall w,
    shell_surface (win (wl_display_iterate b w)) = shell_surface (win w)
    /\ fullscreen (win (wl_display_iterate b w)) = fullscreen (win w).
Proof.
  unfold wl_display_iterate.
  induction b as [ | ev b IH]; intro w; simpl; [ auto | ].
  destruct (IH (dispatch ev w)) as [H1 H2].
  destruct (dispatch_surface ev w) as (K1 & _).
  destruct (dispatch_fields ev w) as (K2 & _).
  split; congruence.
Qed.

Lemma ext_by_native_windows C (l l' : list request) :
  (forall r, C r = true -> negotiation_request r = false) ->
  ext_by C l l' -> native_windows l' = native_windows l.
Proof.
  intros Hc. induction 1 as [ | r l' Hr Hext IH]; [ reflexivity | ].
  specialize (Hc r Hr). destruct r; simpl; try exact IH; discriminate Hc.
Qed.

Lemma handler_not_negotiation (r : request) :
  handler_request r = true -> negotiation_request r = false.
Proof. destruct r; simpl; intro H; try reflexivity; discriminate H. Qed.

(** The state in which [main] calls [init_egl]. *)
Lemma first_batch_state argv (b : batch) :
  let w1 := wl_display_iterate b (connected (main_init argv)) in
  native_windows (log w1) = []
  /\ shell_surface (win w1) = NULL
  /\ fullscreen (win w1) = fullscreen (win (main_init argv))
  /\ (has_global "wl_compositor" b = false -> compositor (d w1) = NULL)
  /\ (has_global "wl_shell" b = false -> shell (d w1) = NULL)
  /\ (has_global "wl_compositor" b = true -> compositor (d w1) <> NULL)
  /\ (has_global "wl_shell" b = true -> shell (d w1) <> NULL).
Proof.
  intro w1. subst w1.
  assert (H0 : native_windows (log (connected (main_init argv))) = []
               /\ shell_surface (win (connected (main_init argv))) = NULL
               /\ fullscreen (win (connected (main_init argv)))
                  = fullscreen (win (main_init argv))
               /\ compositor (d (connected (main_init argv))) = NULL
               /\ shell (d (connected (main_init argv))) = NULL).
  { unfold connected, main_init. split_ifs; simpl; conjs; reflexivity. }
  destruct H0 as (H1 & H2 & H3 & H4 & H5).
  destruct (iterate_surface_fields b (connected (main_init argv))) as [K1 K2].
  conjs; try congruence.
  - rewrite (ext_by_native_windows handler_request _ _
               handler_not_negotiation (iterate_ext b _)). exact H1.
  - intro Hb.
    rewrite (iterate_unannounced compositor _ dispatch_compositor b _ Hb).
    exact H4.
  - intro Hb. rewrite (iterate_unannounced shell _ dispatch_shell b _ Hb).
    exact H5.
  - apply (iterate_announced compositor _ dispatch_compositor).
  - apply (iterate_announced shell _ dispatch_shell).
Qed.


(** ** Windowed runs *)

Lemma is_shell_surface_none (ss : ptr) (w : world) :
  shell_surface (win w) = NULL -> is_shell_surface ss w = false.
Proof.
  intro H. unfold is_shell_surface, is_null. rewrite H.
  destruct (N.eqb ss NULL); reflexivity.
Qed.

(** Before the shell surface exists no event changes the geometry. *)
Lemma iterate_presurface (b : batch) :
  forall w, shell_surface (win w) = NULL ->
    geometry_width (win (wl_display_iterate b w)) = geometry_width (win w)
    /\ geometry_height (win (wl_display_iterate b w))
       = geometry_height (win w).
Proof.
  unfold wl_display_iterate.
  induction b as [ | ev b IH]; intros w Hw; simpl; [ auto | ].
  destruct (dispatch_surface ev w) as (Hs & _).
  destruct (IH (dispatch ev w)) as [H1 H2]; [ congruence | ].
  pose proof (dispatch_geometry ev w) as Hg.
  assert (Hg' : (geometry_width (win (dispatch ev w)),
                 geometry_height (win (dispatch ev w)))
                = (geometry_width (win w), geometry_height (win w))).
  { rewrite Hg. destruct ev; try reflexivity.
    rewrite (is_shell_surface_none ss w Hw). reflexivity. }
  injection Hg' as K1 K2. split; congruence.
Qed.

Lemma viewports_rev (l : list request) :
  viewports (rev l) = rev (viewports l).
Proof.
  unfold viewports. induction l as [ | r l IH]; simpl; [ reflexivity | ].
  rewrite flat_map_app, IH. simpl. rewrite app_nil_r.
  destruct r; simpl; try apply app_nil_r; reflexivity.
Qed.

Lemma ext_by_viewports C (l l' : list request) :
  (forall r, C r = true -> gl_setup_request r = false) ->
  ext_by C l l' -> viewports l' = viewports l.
Proof.
  intros Hc. apply ext_by_flat_map. intros r Hr. specialize (Hc r Hr).
  destruct r; try reflexivity; discriminate Hc.
Qed.

Lemma init_egl_returned env alpha (w w' : world) (u : unit) :
  init_egl env alpha w = Returned u w' ->
  win w' = win w
  /\ compositor (d w') = compositor (d w)
  /\ shell (d w') = shell (d w)
  /\ native_windows (log w') = native_windows (log w)
  /\ viewports (log w') = viewports (log w).
Proof.
  unfold init_egl. simpl. destruct (egl_ok env); simpl; intro H;
    [ | discriminate H ].
  injection H as _ <-. simpl. conjs; reflexivity.
Qed.

(** In windowed mode [create_surface] returns the script untouched and
    has created one native window, at the geometry it found. *)
Lemma create_surface_windowed env (script rest : list batch) (w w' : world) :
  fullscreen (win w) = 0 ->
  create_surface env script w = Returned rest w' ->
  rest = script
  /\ geometry_width (win w') = geometry_width (win w)
  /\ geometry_height (win w') = geometry_height (win w)
  /\ native_windows (log w')
     = (geometry_width (win w), geometry_height (win w))
       :: native_windows (log w)
  /\ viewports (log w') = viewports (log w).
Proof.
  intros Hf. unfold create_surface, create_surface_open. simpl.
  destruct (is_null (compositor (d w))); simpl; [ discriminate | ].
  destruct (is_null (shell (d w))); simpl; [ discriminate | ].
  rewrite Hf. simpl. unfold create_surface_native. simpl.
  destruct (make_current_ok env); simpl; intro H; [ | discriminate H ].
  injection H as <- <-. simpl. conjs; reflexivity.
Qed.

Lemma main_loop_ext (script : list batch) :
  forall w, ext_by handler_request (log w) (log (main_loop script w)).
Proof.
  induction script as [ | b rest IH]; intro w; simpl.
  - destruct (running w =? 0); apply ext_by_refl.
  - destruct (running w =? 0); [ apply ext_by_refl | ].
    eapply ext_by_trans; [ apply iterate_ext | apply IH ].
Qed.

Lemma handler_not_gl_setup (r : request) :
  handler_request r = true -> gl_setup_request r = false.
Proof. destruct r; simpl; intro H; try reflexivity; discriminate H. Qed.

Lemma render_not_setup (r : request) :
  render_request r = true ->
  negotiation_request r = false /\ gl_setup_request r = false.
Proof. destruct r; simpl; intro H; try discriminate H; split; reflexivity. Qed.

Lemma teardown_not_setup (r : request) :
  teardown_request r = true ->
  native_windows [r] = [] /\ gl_setup_request r = false.
Proof. destruct r; simpl; intro H; try discriminate H; split; reflexivity. Qed.

(** The event loop and the teardown create no native window and set
    no viewport. *)
Lemma after_startup_sizes (script : list batch) (w : world) :
  native_windows (log (teardown (main_loop script w)))
  = native_windows (log w)
  /\ viewports (log (teardown (main_loop script w))) = viewports (log w).
Proof.
  pose proof (main_loop_ext script w) as Hl.
  pose proof (teardown_ext (main_loop script w)) as Ht.
  split.
  - rewrite <- (ext_by_native_windows handler_request _ _
                  handler_not_negotiation Hl).
    generalize Ht. generalize (log (main_loop script w)).
    generalize (log (teardown (main_loop script w))).
    intros l' l He. induction He as [ | r l' Hr He IH]; [ reflexivity | ].
    destruct (teardown_not_setup r Hr) as [Hn _].
    destruct r; simpl in *; try exact IH; discriminate Hn.
  - rewrite (ext_by_viewports teardown_request _ _
               (fun r Hr => proj2 (teardown_not_setup r Hr)) Ht).
    apply (ext_by_viewports handler_request _ _ handler_not_gl_setup Hl).
Qed.

Lemma startup_windowed_sizes env argv (script rest : list batch) (w : world) :
  fullscreen (win (main_init argv)) = 0 ->
  startup env argv script = Returned rest w ->
  native_windows (log w) = [(250, 250)]
  /\ viewports (log w) = [(250, 250)].
Proof.
  intros Hf H. rewrite startup_unfold in H.
  destruct (connect_ok env); simpl in H; [ | discriminate H ].
  destruct script as [ | b script]; [ discriminate H | ].
  destruct (first_batch_state argv b) as (N1 & N2 & F1 & _).
  assert (G0 : geometry_width (win (connected (main_init argv))) = 250
               /\ geometry_height (win (connected (main_init argv))) = 250
               /\ shell_surface (win (connected (main_init argv))) = NULL
               /\ viewports (log (connected (main_init argv))) = []).
  { unfold connected, main_init. split_ifs; simpl; conjs; reflexivity. }
  destruct G0 as (G1 & G2 & G3 & G4).
  destruct (iterate_presurface b _ G3) as [K1 K2].
  pose proof (ext_by_viewports handler_request _ _ handler_not_gl_setup
                (iterate_ext b (connected (main_init argv)))) as V1.
  revert H N1 N2 F1 K1 K2 V1.
  generalize (wl_display_iterate b (connected (main_init argv))).
  intros w1 H N1 N2 F1 K1 K2 V1.
  destruct (init_egl env (if fullscreen (win w1) =? 0 then 1 else 0) w1)
    as [u w2 | w2 | w2] eqn:He; simpl in H; try discriminate H.
  destruct (init_egl_returned _ _ _ _ _ He) as (E1 & _ & _ & E4 & E5).
  destruct (create_surface env script w2) as [r3 w3 | w3 | w3] eqn:Hc;
    simpl in H; try discriminate H.
  destruct (create_surface_windowed env script r3 w2 w3) as
    (_ & C2 & C3 & C4 & C5); [ rewrite E1; congruence | exact Hc | ].
  destruct (init_gl env w3) as [u4 w4 | w4 | w4] eqn:Hg; simpl in H;
    try discriminate H.
  destruct (init_gl_returned env w3 w4 u4 Hg) as (_ & _ & I3 & I4).
  injection H as _ <-.
  pose proof (redraw_ext NULL 0 w4) as Hr.
  rewrite (ext_by_native_windows render_request _ _
             (fun r Hr => proj1 (render_not_setup r Hr)) Hr).
  rewrite (ext_by_viewports render_request _ _
             (fun r Hr => proj2 (render_not_setup r Hr)) Hr).
  rewrite I3, I4, C2, C3, C4, C5, E1, E4, E5, K1, K2, N1, V1, G1, G2, G4.
  split; reflexivity.
Qed.

(** In windowed mode every run that returns has created exactly one
    native window and set the viewport exactly once, both at 250 by
    250, whatever sizes the server's configure events carry. *)
Theorem windowed_run_keeps_initial_size env argv (script : list batch)
  (r : Z) (w : world) :
  fullscreen (win (main_init argv)) = 0 ->
  main env argv script = Returned r w ->
  native_windows (requests w) = [(250, 250)]
  /\ viewports (requests w) = [(250, 250)].
Proof.
  intros Hf H. unfold main in H.
  destruct (startup env argv script) as [rest w0 | w0 | w0] eqn:Hs;
    simpl in H; try discriminate H.
  injection H as _ <-.
  destruct (startup_windowed_sizes env argv script rest w0 Hf Hs) as [N V].
  destruct (after_startup_sizes rest w0) as [N' V'].
  unfold requests. rewrite native_windows_rev, viewports_rev, N', V', N, V.
  split; reflexivity.
Qed.

(** ** The viewport and the native window *)

Lemma wait_configured_ext (script : list batch) :
  forall w,
    ext_by handler_request (log w) (log (final (wait_configured script w))).
Proof.
  induction script as [ | b rest IH]; intro w; simpl.
  - destruct (configured (win w) =? 0); apply ext_by_refl.
  - destruct (configured (win w) =? 0); [ | apply ext_by_refl ].
    eapply ext_by_trans; [ apply iterate_ext | apply IH ].
Qed.

(** When [create_surface] returns it has created one native window,
    at the geometry the window has then. *)
Lemma create_surface_returned env (script rest : list batch) (w w' : world) :
  create_surface env script w = Returned rest w' ->
  native_windows (log w')
  = (geometry_width (win w'), geometry_height (win w'))
    :: native_windows (log w)
  /\ viewports (log w') = viewports (log w).
Proof.
  unfold create_surface, create_surface_open. simpl.
  destruct (is_null (compositor (d w))); simpl; [ discriminate | ].
  destruct (is_null (shell (d w))); simpl; [ discriminate | ].
  destruct (fullscreen (win w) =? 0).
  - unfold create_surface_native. simpl.
    destruct (make_current_ok env); simpl; intro H; [ | discriminate H ].
    injection H as _ <-. simpl. split; reflexivity.
  - match goal with
    | |- context [wait_configured script ?x] =>
        pose proof (wait_configured_ext script x) as He;
        destruct (wait_configured script x) as [r1 w1 | w1 | w1]
    end; simpl; try discriminate.
    simpl in He.
    pose proof (ext_by_native_windows handler_request _ _
                  handler_not_negotiation He) as Hn.
    pose proof (ext_by_viewports handler_request _ _
                  handler_not_gl_setup He) as Hv.
    simpl in Hn, Hv.
    unfold create_surface_native. simpl.
    destruct (make_current_ok env); simpl; intro H; [ | discriminate H ].
    injection H as _ <-. simpl. rewrite Hn, Hv. split; reflexivity.
Qed.

Lemma startup_sizes env argv (script rest : list batch) (w : world) :
  startup env argv script = Returned rest w ->
  exists size, native_windows (log w) = [size] /\ viewports (log w) = [size].
Proof.
  intros H. rewrite startup_unfold in H.
  destruct (connect_ok env); simpl in H; [ | discriminate H ].
  destruct script as [ | b script]; [ discriminate H | ].
  destruct (first_batch_state argv b) as (N1 & _).
  assert (G4 : viewports (log (connected (main_init argv))) = []).
  { unfold connected, main_init. split_ifs; reflexivity. }
  pose proof (ext_by_viewports handler_request _ _ handler_not_gl_setup
                (iterate_ext b (connected (main_init argv)))) as V1.
  rewrite G4 in V1. revert H N1 V1.
  generalize (wl_display_iterate b (connected (main_init argv))).
  intros w1 H N1 V1.
  destruct (init_egl env (if fullscreen (win w1) =? 0 then 1 else 0) w1)
    as [u w2 | w2 | w2] eqn:He; simpl in H; try discriminate H.
  destruct (init_egl_returned _ _ _ _ _ He) as (_ & _ & _ & E4 & E5).
  destruct (create_surface env script w2) as [r3 w3 | w3 | w3] eqn:Hc;
    simpl in H; try discriminate H.
  destruct (create_surface_returned env script r3 w2 w3 Hc) as (C4 & C5).
  destruct (init_gl env w3) as [u4 w4 | w4 | w4] eqn:Hg; simpl in H;
    try discriminate H.
  destruct (init_gl_returned env w3 w4 u4 Hg) as (_ & _ & I3 & I4).
  injection H as _ <-.
  pose proof (redraw_ext NULL 0 w4) as Hr.
  rewrite (ext_by_native_windows render_request _ _
             (fun r Hr => proj1 (render_not_setup r Hr)) Hr).
  rewrite (ext_by_viewports render_request _ _
             (fun r Hr => proj2 (render_not_setup r Hr)) Hr).
  exists (geometry_width (win w3), geometry_height (win w3)).
  rewrite I3, I4, C4, C5, E4, E5, N1, V1. split; reflexivity.
Qed.

(** In every run that returns, in either mode, exactly one native
    window was created and the viewport was set exactly once, and the
    two have the same size: configure events that arrive in the event
    loop resize neither. *)
Theorem viewport_matches_native_window env argv (script : list batch)
  (r : Z) (w : world) :
  main env argv script = Returned r w ->
  exists size,
    native_windows (requests w) = [size] /\ viewports (requests w) = [size].
Proof.
  intros H. unfold main in H.
  destruct (startup env argv script) as [rest w0 | w0 | w0] eqn:Hs;
    simpl in H; try discriminate H.
  injection H as _ <-.
  destruct (startup_sizes env argv script rest w0 Hs) as (size & N & V).
  destruct (after_startup_sizes rest w0) as [N' V'].
  exists size. unfold requests.
  rewrite native_windows_rev, viewports_rev, N', V', N, V.
  split; reflexivity.
Qed.

(** ** Runs that do not reach the event loop *)

Lemma no_configure_anywhere (ss : ptr) (script : list batch) :
  (forall b ev, In b script -> In ev b ->
                match ev with Configure _ _ _ _ => False | _ => True end) ->
  existsb (has_configure ss) script = false.
Proof.
  intro H. destruct (existsb (has_configure ss) script) eqn:E;
    [ | reflexivity ].
  apply existsb_exists in E. destruct E as (b & Hb & Hc).
  unfold has_configure in Hc. apply existsb_exists in Hc.
  destruct Hc as (ev & Hev & He). specialize (H b ev Hb Hev).
  destruct ev; try discriminate He. contradiction H.
Qed.

Lemma frames_from_no_swaps (l : list request) :
  swaps l = [] -> forall vp a, frames_from vp a l = [].
Proof.
  unfold swaps. induction l as [ | r l IH]; intros H vp a; [ reflexivity | ].
  simpl in H. destruct r; simpl in *; try (apply IH; exact H).
  discriminate H.
Qed.

(** In fullscreen mode without any configure event start-up ends
    fatally or in the wait of [create_surface], before any native
    window is created. *)
Lemma startup_unconfigured env argv (script : list batch) :
  fullscreen (win (main_init argv)) <> 0 ->
  (forall b ev, In b script -> In ev b ->
                match ev with Configure _ _ _ _ => False | _ => True end) ->
  exists w,
    (startup env argv script = Fatal w \/ startup env argv script = Blocked w)
    /\ native_windows (log w) = [].
Proof.
  intros Hf Hn. rewrite startup_unfold.
  destruct (connect_ok env); simpl.
  2:{ eexists. split; [ left; reflexivity | ].
      unfold main_init. split_ifs; reflexivity. }
  destruct script as [ | b script].
  { eexists. split; [ right; reflexivity | ].
    unfold connected, main_init. split_ifs; reflexivity. }
  destruct (first_batch_state argv b) as (N1 & _ & F1 & _).
  rewrite <- F1 in Hf. revert N1 Hf.
  generalize (wl_display_iterate b (connected (main_init argv))).
  intros w1 N1 Hf. apply Z.eqb_neq in Hf.
  unfold init_egl. simpl. destruct (egl_ok env); simpl.
  2:{ eexists. split; [ left; reflexivity | exact N1 ]. }
  unfold create_surface, create_surface_open. simpl.
  destruct (is_null (compositor (d w1))); simpl.
  { eexists. split; [ left; reflexivity | exact N1 ]. }
  destruct (is_null (shell (d w1))); simpl.
  { eexists. split; [ left; reflexivity | exact N1 ]. }
  rewrite Hf.
  match goal with
  | |- context [wait_configured script ?x] =>
      pose proof (wait_configured_spec (shell_surface (win x)) script x)
        as Hw
  end.
  simpl in Hw. specialize (Hw (N.neq_succ_0 _) eq_refl eq_refl).
  rewrite no_configure_anywhere in Hw.
  - destruct Hw as (w' & H1 & _ & H3). rewrite H1. simpl.
    exists w'. split; [ right; reflexivity | ]. rewrite H3. exact N1.
  - intros b0 ev Hb Hev. apply (Hn b0 ev); [ right; exact Hb | exact Hev ].
Qed.

(** In fullscreen mode a run to which the server sends no configure
    event never returns; it has presented no frame and created no
    native window. *)
Theorem fullscreen_without_configure_never_draws env argv
  (script : list batch) :
  fullscreen (win (main_init argv)) <> 0 ->
  (forall b ev, In b script -> In ev b ->
                match ev with Configure _ _ _ _ => False | _ => True end) ->
  (forall r w, main env argv script <> Returned r w)
  /\ frames (final (main env argv script)) = []
  /\ native_windows (requests (final (main env argv script))) = [].
Proof.
  intros Hf Hn.
  destruct (startup_unconfigured env argv script Hf Hn) as (w0 & Hs & N0).
  pose proof (startup_Armed env argv script) as Hi.
  pose proof (main_balanced env argv script) as [Hb _].
  assert (Hm : final (main env argv script) = w0
               /\ forall r w, main env argv script <> Returned r w).
  { unfold main. destruct Hs as [Hs | Hs]; rewrite Hs; simpl;
      split; try reflexivity; intros r w; discriminate. }
  destruct Hm as [Hm Hnr]. rewrite Hm in *.
  assert (Ha : angles (log w0) = []).
  { destruct Hs as [Hs | Hs]; rewrite Hs in Hi;
      destruct Hi as (_ & _ & _ & Ha & _); exact Ha. }
  split; [ exact Hnr | ]. split.
  - unfold frames. apply frames_from_no_swaps.
    rewrite Ha in Hb. simpl in Hb.
    pose proof (flat_map_rev_length
                  (fun r => match r with
                            | EglSwapBuffers es => [es]
                            | _ => []
                            end) (log w0)) as Hl.
    fold (swaps (rev (log w0))) in Hl. fold (swaps (log w0)) in Hl.
    rewrite Hb in Hl. unfold requests.
    destruct (swaps (rev (log w0))); [ reflexivity | discriminate Hl ].
  - unfold requests. rewrite native_windows_rev, N0. reflexivity.
Qed.

(** ** The further properties at concrete inputs *)

Ltac find_in := vm_compute; repeat (first [ left; reflexivity | right ]).

Lemma every_pong_answers_a_ping_witness :
  In (WlShellSurfacePong 8%N 42)
     (requests (final (main all_ok argv_windowed pinged)))
  /\ exists b, In b pinged /\ In (Ping 8%N 42) b.
Proof.
  assert (H : In (WlShellSurfacePong 8%N 42)
                 (requests (final (main all_ok argv_windowed pinged))))
    by find_in.
  split; [ exact H | ].
  exact (every_pong_answers_a_ping all_ok argv_windowed pinged 8%N 42 H).
Defined.

Lemma every_bind_answers_a_global_witness :
  In (WlDisplayBind 2 "wl_shell" 3%N)
     (requests (final (main all_ok argv_windowed pinged)))
  /\ (exists b version, In b pinged /\ In (Global 2 "wl_shell" version) b).
Proof.
  assert (H : In (WlDisplayBind 2 "wl_shell" 3%N)
                 (requests (final (main all_ok argv_windowed pinged))))
    by find_in.
  split; [ exact H | ].
  exact (proj1 (every_bind_answers_a_global all_ok argv_windowed pinged
                  2 "wl_shell" 3%N H)).
Defined.


Lemma captured_start_time_is_kept_witness :
  start_time armed_at_1000 <> 0
  /\ angles (requests (main_loop [[Done 1%N 2000; MaskUpdate 3]]
                                 armed_at_1000))
     = [0; 200]
  /\ start_time (main_loop [[Done 1%N 2000; MaskUpdate 3]] armed_at_1000)
     = start_time armed_at_1000.
Proof.
  assert (H : start_time armed_at_1000 <> 0) by discriminate.
  split; [ exact H | ]. split; [ vm_compute; reflexivity | ].
  exact (proj1 (captured_start_time_is_kept
                  [[Done 1%N 2000; MaskUpdate 3]] armed_at_1000 H)).
Defined.


Lemma windowed_run_keeps_initial_size_witness :
  fullscreen (win (main_init argv_windowed)) = 0
  /\ main all_ok argv_windowed end_to_end
     = Returned 0 (final (main all_ok argv_windowed end_to_end))
  /\ native_windows (requests (final (main all_ok argv_windowed end_to_end)))
     = [(250, 250)]
  /\ viewports (requests (final (main all_ok argv_windowed end_to_end)))
     = [(250, 250)].
Proof.
  assert (Hf : fullscreen (win (main_init argv_windowed)) = 0) by reflexivity.
  assert (Hm : main all_ok argv_windowed end_to_end
               = Returned 0 (final (main all_ok argv_windowed end_to_end)))
    by (vm_compute; reflexivity).
  split; [ exact Hf | ]. split; [ exact Hm | ].
  exact (windowed_run_keeps_initial_size all_ok argv_windowed end_to_end 0
           _ Hf Hm).
Defined.

Lemma viewport_matches_native_window_witness :
  main all_ok argv_fullscreen end_to_end
  = Returned 0 (final (main all_ok argv_fullscreen end_to_end))
  /\ exists size,
      native_windows (requests (final (main all_ok argv_fullscreen
                                            end_to_end))) = [size]
      /\ viewports (requests (final (main all_ok argv_fullscreen
                                          end_to_end))) = [size].
Proof.
  assert (Hm : main all_ok argv_fullscreen end_to_end
               = Returned 0 (final (main all_ok argv_fullscreen end_to_end)))
    by (vm_compute; reflexivity).
  split; [ exact Hm | ].
  exact (viewport_matches_native_window all_ok argv_fullscreen end_to_end 0
           _ Hm).
Defined.

Lemma fullscreen_without_configure_never_draws_witness :
  fullscreen (win (main_init argv_fullscreen)) <> 0
  /\ (forall r w, main all_ok argv_fullscreen pinged <> Returned r w)
  /\ frames (final (main all_ok argv_fullscreen pinged)) = [].
Proof.
  assert (Hf : fullscreen (win (main_init argv_fullscreen)) <> 0)
    by discriminate.
  assert (Hn : forall b ev, In b pinged -> In ev b ->
                 match ev with Configure _ _ _ _ => False | _ => True end).
  { intros b ev Hb Hev. unfold pinged, announce in Hb.
    destruct Hb as [<- | [<- | []]];
      repeat (destruct Hev as [<- | Hev]; [ exact I | ]); contradiction Hev. }
  split; [ exact Hf | ].
  destruct (fullscreen_without_configure_never_draws all_ok argv_fullscreen
              pinged Hf Hn) as (H1 & H2 & _).
  split; [ exact H1 | exact H2 ].
Defined.
